(** * Moving-average crossover bots: [common_algos/ema.py] and [common_algos/sma.py]

    A shallow embedding of the two polling trading loops and of the pandas
    operations they call, followed by the properties of the indicator
    engine, the crossover detector and the position-gated executor.

    Numbers.  Python floats are modelled by exact rationals [Q]; the
    rounding of binary64 arithmetic is abstracted away and equality of
    computed values is [Qeq] ([==]): the values the programs compute are
    the binary64 roundings of the values of this model.  Where a property
    depends on the rounding itself, the EMA kernel is also given over
    binary64 floats (module [Binary64]).  The one non-number the programs
    can meet, the NaN that [rolling(...).mean()] writes where the window
    is not full, is [None] in [option Q]; every comparison with it is
    [false], as in Python.  Closes and position quantities come from the
    broker and are numbers, hence plain [Q].

    Frames.  A [DataFrame] of bars that has its [close] column is
    modelled by that column, a [list Q] in chronological order;
    [calculate_ema] and [calculate_sma] return the column they add,
    index-aligned with the input.  The [df['close']] lookup itself, which
    raises [KeyError] on a frame without that column such as the
    [pd.DataFrame()] that [get_historical_data] returns on failure, is
    the module [Frame].

    Effects.  A call that can raise returns in the [result] monad; one
    iteration of the [while True] loop of [main] is the function
    [main_cycle] from what the broker returned (position and bars) to the
    branch taken and the [place_order] calls it made. *)

From Stdlib Require Import String QArith ZArith List Bool Lia Lqa.
From Stdlib Require Import Qround Qabs.
From Stdlib Require PrimFloat.
Import ListNotations.
Open Scope Q_scope.

(** ** Exceptions *)

Inductive exn : Type :=
| ValueError
| IndexError
| KeyError.

Definition result (A : Type) : Type := (exn + A)%type.

Definition ret {A : Type} (a : A) : result A := inr a.

Definition raise {A : Type} (e : exn) : result A := inl e.

Definition bind {A B : Type} (c : result A) (k : A -> result B) : result B :=
  match c with
  | inl e => inl e
  | inr a => k a
  end.

Declare Scope result_scope.
Delimit Scope result_scope with result.
Notation "x <- c ;; k" := (bind c (fun x => k))
  (at level 61, c at next level, right associativity) : result_scope.
Open Scope result_scope.

(** ** Float comparisons

    [>], [<], [>=], [<=] and [==] of two Python floats that are numbers,
    and their versions on values that may be NaN. *)

Definition Qgtb (x y : Q) : bool := negb (Qle_bool x y).
Definition Qltb (x y : Q) : bool := negb (Qle_bool y x).
Definition Qgeb (x y : Q) : bool := Qle_bool y x.
Definition Qleb (x y : Q) : bool := Qle_bool x y.

Module Float.

Definition t : Type := option Q.

Definition NaN : t := None.

Definition cmp (op : Q -> Q -> bool) (a b : t) : bool :=
  match a, b with
  | Some x, Some y => op x y
  | _, _ => false
  end.

Definition gt : t -> t -> bool := cmp Qgtb.
Definition lt : t -> t -> bool := cmp Qltb.
Definition ge : t -> t -> bool := cmp Qgeb.
Definition le : t -> t -> bool := cmp Qleb.

(** Equality of two values up to [Qeq]; NaN is related to NaN only here,
    where a series is compared with what it should be, never by the
    programs. *)
Definition equiv (a b : t) : Prop :=
  match a, b with
  | Some x, Some y => x == y
  | None, None => True
  | _, _ => False
  end.

End Float.

(** ** The pandas operations used by the two scripts *)

Module Pandas.

(** [values[a:b]] *)
Definition slice {A : Type} (values : list A) (a b : nat) : list A :=
  firstn (b - a) (skipn a values).

(** [s.iloc[-k]] for [k >= 1]: the [k]-th element from the end;
    [IndexError] when the series has fewer than [k] elements. *)
Definition iloc_neg {A : Type} (s : list A) (k : nat) : result A :=
  if (length s <? k)%nat then raise IndexError
  else match nth_error s (length s - k) with
       | Some v => ret v
       | None => raise IndexError
       end.

(** *** [Series.ewm(span=..., adjust=False).mean()]

    The span is turned into a centre of mass, [com = (span - 1) / 2], and
    [alpha = 1 / (1 + com)]; a span below 1 is refused with [ValueError].
    The running value starts at the first observation; at each later
    observation the old weight [1] is scaled by [1 - alpha], the new value
    enters with weight [alpha], the sum is normalised by the two weights,
    and the old weight goes back to [1] because [adjust] is off.  A value
    equal to the running one leaves it untouched. *)

Definition get_center_of_mass (span : Z) : result Q :=
  if (span <? 1)%Z then raise ValueError
  else ret ((inject_Z span - 1) / 2).

Definition ewm_step (old_wt_factor new_wt : Q) (weighted cur : Q) : Q :=
  let old_wt := 1 * old_wt_factor in
  if Qeq_bool weighted cur then weighted
  else (old_wt * weighted + new_wt * cur) / (old_wt + new_wt).

Fixpoint ewm_loop (old_wt_factor new_wt : Q) (weighted : Q) (vals : list Q)
  : list Q :=
  match vals with
  | [] => []
  | cur :: rest =>
      let weighted' := ewm_step old_wt_factor new_wt weighted cur in
      weighted' :: ewm_loop old_wt_factor new_wt weighted' rest
  end.

Definition ewm_mean (span : Z) (vals : list Q) : result (list Q) :=
  com <- get_center_of_mass span ;;
  let alpha := 1 / (1 + com) in
  let old_wt_factor := 1 - alpha in
  let new_wt := alpha in
  match vals with
  | [] => ret []
  | v0 :: rest => ret (v0 :: ewm_loop old_wt_factor new_wt v0 rest)
  end.

(** *** [Series.rolling(window=...).mean()]

    A negative window is refused with [ValueError].  [min_periods]
    defaults to the window size.  The window of index [i] is
    [values[max(0, i+1-window) : i+1]]; the running count and sum are set
    up on the first window and then updated by removing the values that
    left and adding those that entered.  The mean is the sum over the
    count when the count reaches [min_periods] and is positive, NaN
    otherwise. *)

Record mean_state : Type := { nobs : Z; sum_x : Q }.

Definition add_mean (st : mean_state) (val : Q) : mean_state :=
  {| nobs := nobs st + 1; sum_x := sum_x st + val |}.

Definition remove_mean (st : mean_state) (val : Q) : mean_state :=
  {| nobs := nobs st - 1; sum_x := sum_x st - val |}.

Definition calc_mean (minp : Z) (st : mean_state) : Float.t :=
  if ((minp <=? nobs st)%Z && (0 <? nobs st)%Z)%bool
  then Some (sum_x st / inject_Z (nobs st))
  else Float.NaN.

Definition window_start (window i : nat) : nat := (i + 1 - window)%nat.
Definition window_end (i : nat) : nat := (i + 1)%nat.

Fixpoint roll_mean_loop (values : list Q) (window : nat) (minp : Z)
  (i n : nat) (st : mean_state) : list Float.t :=
  match n with
  | O => []
  | S n' =>
      let s := window_start window i in
      let e := window_end i in
      let st' :=
        match i with
        | O => fold_left add_mean (slice values s e) {| nobs := 0; sum_x := 0 |}
        | S j =>
            let removed :=
              fold_left remove_mean (slice values (window_start window j) s) st in
            fold_left add_mean (slice values (window_end j) e) removed
        end in
      calc_mean minp st' :: roll_mean_loop values window minp (S i) n' st'
  end.

Definition rolling_mean (window : Z) (values : list Q) : result (list Float.t) :=
  if (window <? 0)%Z then raise ValueError
  else ret (roll_mean_loop values (Z.to_nat window) window 0 (length values)
              {| nobs := 0; sum_x := 0 |}).

End Pandas.

(** ** What a polling cycle does

    [place_order(symbol, qty, side)] hands one market order to the broker;
    a cycle is observed through the branch it took, the two signals it
    computed and the orders it placed, in program order. *)

Inductive Side : Type :=
| buy
| sell.

Record Order : Type :=
  { order_symbol : string; order_qty : Z; order_side : Side }.

Definition place_order (symbol : string) (qty : Z) (side : Side) : Order :=
  {| order_symbol := symbol; order_qty := qty; order_side := side |}.

Inductive cycle_outcome : Type :=
| SkippedNoData
| SkippedNotEnoughData
| Decided (buy_signal sell_signal : bool) (orders : list Order).

Definition orders_of (o : cycle_outcome) : list Order :=
  match o with
  | Decided _ _ orders => orders
  | _ => []
  end.

(** [DataFrame.empty] *)
Definition empty {A : Type} (df : list A) : bool :=
  match df with
  | [] => true
  | _ :: _ => false
  end.

(** [len(df)] *)
Definition len {A : Type} (df : list A) : Z := Z.of_nat (length df).

(** ** [common_algos/ema.py] *)

Module Ema.

Definition SYMBOL : string := "AAPL".
Definition SHORT_EMA_WINDOW : Z := 12.
Definition LONG_EMA_WINDOW : Z := 26.

(** The column [ema_{window}] that [calculate_ema] adds to the frame. *)
Definition calculate_ema (data : list Q) (window : Z) : result (list Q) :=
  Pandas.ewm_mean window data.

(** The frame [calculate_ema_crossover_strategy] returns: the closes, the
    two EMA columns, [signal] and [position] (the [diff] of [signal], NaN
    in its first row). *)
Record strategy_frame : Type :=
  { col_close : list Q;
    col_ema_short : list Q;
    col_ema_long : list Q;
    col_signal : list Z;
    col_position : list (option Z) }.

(** [np.where(a > b, 1, 0)] *)
Fixpoint where_gt (a b : list Q) : list Z :=
  match a, b with
  | x :: a', y :: b' => (if Qgtb x y then 1%Z else 0%Z) :: where_gt a' b'
  | _, _ => []
  end.

(** [Series.diff()] *)
Fixpoint diff_from (prev : Z) (s : list Z) : list (option Z) :=
  match s with
  | [] => []
  | x :: s' => Some (x - prev)%Z :: diff_from x s'
  end.

Definition diff (s : list Z) : list (option Z) :=
  match s with
  | [] => []
  | x :: s' => None :: diff_from x s'
  end.

Definition calculate_ema_crossover_strategy (data : list Q)
  (short_window long_window : Z) : result strategy_frame :=
  ema_short <- calculate_ema data short_window ;;
  ema_long <- calculate_ema data long_window ;;
  let signal := where_gt ema_short ema_long in
  ret {| col_close := data;
         col_ema_short := ema_short;
         col_ema_long := ema_long;
         col_signal := signal;
         col_position := diff signal |}.

(** One iteration of the loop of [main], from the position and the bars
    the broker returned. *)
Definition main_cycle (position : Q) (historical_data : list Q)
  : result cycle_outcome :=
  if empty historical_data then ret SkippedNoData
  else
    ema_df <- calculate_ema_crossover_strategy historical_data
                SHORT_EMA_WINDOW LONG_EMA_WINDOW ;;
    if (len (col_close ema_df) <? LONG_EMA_WINDOW)%Z then ret SkippedNotEnoughData
    else
      current_ema_short <- Pandas.iloc_neg (col_ema_short ema_df) 1 ;;
      current_ema_long <- Pandas.iloc_neg (col_ema_long ema_df) 1 ;;
      previous_ema_short <- Pandas.iloc_neg (col_ema_short ema_df) 2 ;;
      previous_ema_long <- Pandas.iloc_neg (col_ema_long ema_df) 2 ;;
      let buy_signal :=
        Qgtb current_ema_short current_ema_long
        && Qleb previous_ema_short previous_ema_long in
      let sell_signal :=
        Qltb current_ema_short current_ema_long
        && Qgeb previous_ema_short previous_ema_long in
      if buy_signal && Qeq_bool position 0 then
        let qty_to_buy := 1%Z in
        ret (Decided buy_signal sell_signal [place_order SYMBOL qty_to_buy buy])
      else if sell_signal && Qgtb position 0 then
        let qty_to_sell := 1%Z in
        ret (Decided buy_signal sell_signal [place_order SYMBOL qty_to_sell sell])
      else
        ret (Decided buy_signal sell_signal []).

End Ema.

(** ** [common_algos/sma.py] *)

Module Sma.

Definition SYMBOL : string := "AAPL".
Definition SMA_WINDOW : Z := 20.

(** The column [sma] that [calculate_sma] adds to the frame. *)
Definition calculate_sma (data : list Q) (window : Z) : result (list Float.t) :=
  Pandas.rolling_mean window data.

(** One iteration of the loop of [main]. *)
Definition main_cycle (position : Q) (historical_data : list Q)
  : result cycle_outcome :=
  if empty historical_data then ret SkippedNoData
  else
    sma <- calculate_sma historical_data SMA_WINDOW ;;
    if (len sma <? SMA_WINDOW)%Z then ret SkippedNotEnoughData
    else
      current_price <- Pandas.iloc_neg historical_data 1 ;;
      current_sma <- Pandas.iloc_neg sma 1 ;;
      previous_sma <- Pandas.iloc_neg sma 2 ;;
      let buy_signal :=
        Float.gt (Some current_price) current_sma
        && Float.le previous_sma current_sma in
      let sell_signal :=
        Float.lt (Some current_price) current_sma
        && Float.ge previous_sma current_sma in
      if buy_signal && Qeq_bool position 0 then
        let qty_to_buy := 1%Z in
        ret (Decided buy_signal sell_signal [place_order SYMBOL qty_to_buy buy])
      else if sell_signal && Qgtb position 0 then
        let qty_to_sell := 1%Z in
        ret (Decided buy_signal sell_signal [place_order SYMBOL qty_to_sell sell])
      else
        ret (Decided buy_signal sell_signal []).

End Sma.

(** ** The vocabulary of the specification

    These definitions follow the words of the specification; the theorems
    below compare them with the programs. *)

Inductive CrossoverEvent : Type :=
| NONE
| BULLISH
| BEARISH.

(** The event a cycle detected, from its two signals. *)
Definition event_of_signals (buy_signal sell_signal : bool) : CrossoverEvent :=
  if buy_signal then BULLISH
  else if sell_signal then BEARISH
  else NONE.

Definition event_of (o : cycle_outcome) : CrossoverEvent :=
  match o with
  | Decided b s _ => event_of_signals b s
  | _ => NONE
  end.

(** The classification of section 4.2 on the last two samples of A and B. *)
Definition spec_crossover (A_prev B_prev A_cur B_cur : Float.t) : CrossoverEvent :=
  if Float.le A_prev B_prev && Float.gt A_cur B_cur then BULLISH
  else if Float.ge A_prev B_prev && Float.lt A_cur B_cur then BEARISH
  else NONE.

Inductive State : Type :=
| FLAT
| LONG.

(** The state inferred from the fetched quantity; a negative quantity is
    neither. *)
Definition infer_state (quantity : Q) : option State :=
  if Qeq_bool quantity 0 then Some FLAT
  else if Qgtb quantity 0 then Some LONG
  else None.

(** The transition table of section 4.3, as the orders of one cycle. *)
Definition spec_transition (symbol : string) (fixed_qty : Z)
  (st : State) (ev : CrossoverEvent) : list Order :=
  match st, ev with
  | FLAT, BULLISH => [place_order symbol fixed_qty buy]
  | LONG, BEARISH => [place_order symbol fixed_qty sell]
  | _, _ => []
  end.

(** The arithmetic mean of a list of closes. *)
Definition Qsum (l : list Q) : Q := fold_right Qplus 0 l.

Definition mean (l : list Q) : Q := Qsum l / inject_Z (Z.of_nat (length l)).

(** The smoothing factor of section 4.1. *)
Definition smoothing (window : Z) : Q := 2 / (inject_Z window + 1).

(** A strictly increasing series. *)
Definition strictly_increasing (l : list Q) : Prop :=
  forall i j : nat, (i < j < length l)%nat -> nth i l 0 < nth j l 0.

(** The number of defined samples at the end of a series. *)
Fixpoint leading_defined (s : list Float.t) : nat :=
  match s with
  | Some _ :: s' => S (leading_defined s')
  | _ => O
  end.

Definition trailing_defined (s : list Float.t) : nat :=
  leading_defined (rev s).

(** ** Views of the programs used to state their properties *)

(** The smoothing factor [ewm_mean] derives from a span. *)
Definition alpha_of_span (span : Z) : Q :=
  1 / (1 + (inject_Z span - 1) / 2).

(** The series [calculate_ema] returns for a valid window. *)
Definition ema_series (window : Z) (data : list Q) : list Q :=
  match data with
  | [] => []
  | v0 :: rest =>
      v0 :: Pandas.ewm_loop (1 - alpha_of_span window) (alpha_of_span window) v0 rest
  end.

(** A checker of strict increase for concrete series. *)
Fixpoint increasingb (l : list Q) : bool :=
  match l with
  | x :: (y :: _) as tl => Qltb x y && increasingb tl
  | _ => true
  end.

(** The SMA of section 4.1 at index [i]: undefined before the window is
    full, the mean of the [window] closes ending at [i] from then on. *)
Definition spec_sma_at (closes : list Q) (window : nat) (i : nat) : Float.t :=
  if (i + 1 <? window)%nat then Float.NaN
  else Some (mean (Pandas.slice closes (i + 1 - window) (i + 1))).

(** The running state of the rolling mean describes the window of index
    [i]: its count and, up to [==], its sum. *)
Definition window_state (values : list Q) (window i : nat)
  (st : Pandas.mean_state) : Prop :=
  let w := Pandas.slice values (Pandas.window_start window i) (Pandas.window_end i) in
  Pandas.nobs st = Z.of_nat (length w) /\ Pandas.sum_x st == Qsum w.

(** The series [calculate_sma] returns for a valid window. *)
Definition sma_series (window : Z) (data : list Q) : list Float.t :=
  Pandas.roll_mean_loop data (Z.to_nat window) window 0 (length data)
    {| Pandas.nobs := 0; Pandas.sum_x := 0 |}.

(** The sample [k] places from the end of a series that has one. *)
Definition from_end {A : Type} (s : list A) (k : nat) (d : A) : A :=
  nth (length s - k) s d.

(** The last transition of two aligned series A and B, classified as in
    section 4.2; NONE when either has fewer than two samples. *)
Definition spec_detect (A B : list Float.t) : CrossoverEvent :=
  if ((length A <? 2)%nat || (length B <? 2)%nat)%bool then NONE
  else spec_crossover (from_end A 2 Float.NaN) (from_end B 2 Float.NaN)
                      (from_end A 1 Float.NaN) (from_end B 1 Float.NaN).

(** The decision block that ends a cycle of either script, as a function
    of the two signals and the position. *)
Definition decision (symbol : string) (buy_signal sell_signal : bool)
  (position : Q) : cycle_outcome :=
  Decided buy_signal sell_signal
    (if buy_signal && Qeq_bool position 0 then [place_order symbol 1 buy]
     else if sell_signal && Qgtb position 0 then [place_order symbol 1 sell]
     else []).

(** The signals of an EMA cycle that reaches the detector. *)
Definition ema_buy_signal (data : list Q) : bool :=
  let short := ema_series Ema.SHORT_EMA_WINDOW data in
  let long := ema_series Ema.LONG_EMA_WINDOW data in
  Qgtb (from_end short 1 0) (from_end long 1 0)
  && Qleb (from_end short 2 0) (from_end long 2 0).

Definition ema_sell_signal (data : list Q) : bool :=
  let short := ema_series Ema.SHORT_EMA_WINDOW data in
  let long := ema_series Ema.LONG_EMA_WINDOW data in
  Qltb (from_end short 1 0) (from_end long 1 0)
  && Qgeb (from_end short 2 0) (from_end long 2 0).

(** The signals of an SMA cycle that reaches the detector. *)
Definition sma_buy_signal (data : list Q) : bool :=
  let sma := sma_series Sma.SMA_WINDOW data in
  Float.gt (Some (from_end data 1 0)) (from_end sma 1 Float.NaN)
  && Float.le (from_end sma 2 Float.NaN) (from_end sma 1 Float.NaN).

Definition sma_sell_signal (data : list Q) : bool :=
  let sma := sma_series Sma.SMA_WINDOW data in
  Float.lt (Some (from_end data 1 0)) (from_end sma 1 Float.NaN)
  && Float.ge (from_end sma 2 Float.NaN) (from_end sma 1 Float.NaN).

(** Properties of the orders and signals of one cycle: at most one order,
    never a buy together with a sell, never both signals. *)
Definition at_most_one_order (o : cycle_outcome) : Prop :=
  (length (orders_of o) <= 1)%nat.

Definition no_opposing_orders (o : cycle_outcome) : Prop :=
  ~ ((exists x, In x (orders_of o) /\ order_side x = buy)
     /\ (exists y, In y (orders_of o) /\ order_side y = sell)).

Definition signals_exclusive (o : cycle_outcome) : Prop :=
  forall (b s : bool) (orders : list Order),
    o = Decided b s orders -> b && s = false.

(** Two concrete bar series for [sma.py], 21 bars each.  In the first the
    close rises by one at every bar, so the price has been above its
    20-bar average for the last two bars.  In the second the last two
    closes are equal and the bar that leaves the window equals the one
    that enters, so neither the price nor the average moves. *)
Definition rising_closes : list Q :=
  map (fun n : nat => inject_Z (Z.of_nat n)) (seq 1 21).

Definition steady_closes : list Q :=
  5 :: repeat 1 18 ++ [5; 5].

(** ** Further vocabulary

    A value within two bounds, and a series all of whose values are. *)
Definition within (lo hi : Q) (x : Q) : Prop := lo <= x /\ x <= hi.

Definition defined_within (lo hi : Q) (x : Float.t) : Prop :=
  match x with
  | Some v => within lo hi v
  | None => True
  end.

(** ** The broker and the polling loop

    The three helpers that talk to the broker are the same in both
    scripts.  A call to the broker either raises or returns; the helpers
    catch whatever it raises.  [place_order] catches too, so a refused
    order changes nothing in the rest of the cycle. *)

Inductive api_reply (A : Type) : Type :=
| ApiRaised
| ApiReturned (a : A).

Arguments ApiRaised {A}.
Arguments ApiReturned {A} a.

(** [get_position]: the quantity held, [0.0] when the lookup raises. *)
Definition get_position (reply : api_reply Q) : Q :=
  match reply with
  | ApiReturned qty => qty
  | ApiRaised => 0
  end.

(** [get_historical_data]: the bars, an empty frame when there are none
    or when the request raises. *)
Definition get_historical_data (reply : api_reply (list Q)) : list Q :=
  match reply with
  | ApiReturned bars => if empty bars then [] else bars
  | ApiRaised => []
  end.

(** What the broker answers during one iteration. *)
Record poll : Type :=
  { position_reply : api_reply Q; bars_reply : api_reply (list Q) }.

(** The [while True] loop of [main] over the answers of the broker: the
    outcomes of the iterations that completed, and the exception that
    ended the loop if one escaped. *)
Fixpoint main_loop (cycle : Q -> list Q -> result cycle_outcome)
  (polls : list poll) : list cycle_outcome * option exn :=
  match polls with
  | [] => ([], None)
  | p :: polls' =>
      let position := get_position (position_reply p) in
      let historical_data := get_historical_data (bars_reply p) in
      match cycle position historical_data with
      | inl e => ([], Some e)
      | inr o =>
          let (outcomes, ended) := main_loop cycle polls' in
          (o :: outcomes, ended)
      end
  end.

Definition ema_main : list poll -> list cycle_outcome * option exn :=
  main_loop Ema.main_cycle.

Definition sma_main : list poll -> list cycle_outcome * option exn :=
  main_loop Sma.main_cycle.

(** All the orders of a run, in the order they were placed. *)
Definition orders_placed (outcomes : list cycle_outcome) : list Order :=
  concat (map orders_of outcomes).

(** A broker that fills every order in full before the next poll: each
    poll reports the previous quantity plus what the previous iteration
    bought, minus what it sold. *)
Definition signed_quantity (o : Order) : Z :=
  match order_side o with
  | buy => order_qty o
  | sell => (- order_qty o)%Z
  end.

Definition net_quantity (orders : list Order) : Z :=
  fold_right (fun o acc => (signed_quantity o + acc)%Z) 0%Z orders.

Fixpoint fills_immediately (cycle : Q -> list Q -> result cycle_outcome)
  (position : Q) (feed : list (Q * list Q)) : Prop :=
  match feed with
  | [] => True
  | (reported, bars) :: feed' =>
      reported == position
      /\ match cycle reported bars with
         | inr o =>
             fills_immediately cycle
               (reported + inject_Z (net_quantity (orders_of o))) feed'
         | inl _ => True
         end
  end.

Definition flat_or_long_one (reported : Q * list Q) : Prop :=
  fst reported == 0 \/ fst reported == 1.

(** ** [round_down] of [sma.py]

    [Decimal(value)] is the exact value of the float, a rational.  The
    quantum ['1.' + '0' * decimals] has as many places as the string
    repetition has characters, none for a negative [decimals].
    [quantize] with [ROUND_DOWN] drops the digits beyond those places;
    under the default context (28 digits, exponents down to -1000026) it
    signals [InvalidOperation] when the result needs more than 28 digits.
    With more than 1000026 places the call raises whatever the value:
    [InvalidOperation] from [quantize] when the string of zeros could be
    built, because the quantum's exponent is out of bounds, and
    [OverflowError] or [MemoryError] from ['0' * decimals] itself when it
    could not; which of the three depends on the machine, and the model
    records only that no value is returned. *)

Inductive quantized : Type :=
| InvalidOperation
| QuantumRejected
| Decimal (value : Q).

(** The integer part, towards zero. *)
Definition Qtruncate (x : Q) : Z := Z.quot (Qnum x) (Zpos (Qden x)).

Definition round_down (value : Q) (decimals : Z) : quantized :=
  let places := Z.of_nat (Z.to_nat decimals) in
  if (1000026 <? places)%Z then QuantumRejected
  else
    let scaled := Qtruncate (value * inject_Z (10 ^ places)) in
    if (10 ^ 28 <=? Z.abs scaled)%Z then InvalidOperation
    else Decimal (scaled # Z.to_pos (10 ^ places)).

(** One unit in the last place kept. *)
Definition last_place (decimals : Z) : Q :=
  1 # Z.to_pos (10 ^ Z.of_nat (Z.to_nat decimals)).

(** ** The EMA kernel in binary64

    The same operations as [Pandas.ewm_mean], in the same order, on
    binary64 floats with round-to-nearest: the span as a float, the
    comparison [weighted != cur], the weighted sum and its
    normalisation. *)

Module Binary64.

Import PrimFloat.

Definition get_center_of_mass (span : float) : result float :=
  if ltb span 1%float then raise ValueError
  else ret (div (sub span 1%float) 2%float).

Definition ewm_step (old_wt_factor new_wt : float) (weighted cur : float) : float :=
  let old_wt := mul 1%float old_wt_factor in
  if eqb weighted cur then weighted
  else div (add (mul old_wt weighted) (mul new_wt cur)) (add old_wt new_wt).

Fixpoint ewm_loop (old_wt_factor new_wt : float) (weighted : float)
  (vals : list float) : list float :=
  match vals with
  | [] => []
  | cur :: rest =>
      let weighted' := ewm_step old_wt_factor new_wt weighted cur in
      weighted' :: ewm_loop old_wt_factor new_wt weighted' rest
  end.

Definition ewm_mean (span : float) (vals : list float) : result (list float) :=
  com <- get_center_of_mass span ;;
  let alpha := div 1%float (add 1%float com) in
  let old_wt_factor := sub 1%float alpha in
  let new_wt := alpha in
  match vals with
  | [] => ret []
  | v0 :: rest => ret (v0 :: ewm_loop old_wt_factor new_wt v0 rest)
  end.

(** [calculate_ema] on a binary64 close column. *)
Definition calculate_ema (data : list float) (window : float)
  : result (list float) :=
  ewm_mean window data.

(** Strict increase of a binary64 series, by the float comparison. *)
Fixpoint increasingb (l : list float) : bool :=
  match l with
  | x :: (y :: _) as tl => ltb x y && increasingb tl
  | _ => true
  end.

(** The two windows of [ema.py] as floats, and a two-bar series: the
    close 1.0 followed by the next binary64 number, 1.0000000000000002. *)
Definition SHORT_EMA_WINDOW : float := 12%float.
Definition LONG_EMA_WINDOW : float := 26%float.

Definition one : float := 1%float.

Definition barely_rising_closes : list float :=
  [1%float; 0x1.0000000000001p+0%float].

End Binary64.

(** ** Frames with or without the [close] column

    A frame either has a [close] column, and is then known by it, or has
    other columns only and is known by its number of rows;
    [pd.DataFrame()], without columns and without rows, is the second
    kind with no row. *)

Inductive DataFrame : Type :=
| Without_close (n_rows : nat)
| With_close (close : list Q).

Module Frame.

(** [pd.DataFrame()] *)
Definition DataFrame_new : DataFrame := Without_close 0.

(** [df.empty] *)
Definition df_empty (df : DataFrame) : bool :=
  match df with
  | Without_close n => (n =? 0)%nat
  | With_close close => empty close
  end.

(** [df['close']] *)
Definition getitem_close (df : DataFrame) : result (list Q) :=
  match df with
  | Without_close _ => raise KeyError
  | With_close close => ret close
  end.

(** [calculate_ema] and [calculate_sma] from the frame: the column is
    looked up first, then handed to [ewm] or [rolling]. *)
Definition calculate_ema (data : DataFrame) (window : Z) : result (list Q) :=
  close <- getitem_close data ;;
  Ema.calculate_ema close window.

Definition calculate_sma (data : DataFrame) (window : Z) : result (list Float.t) :=
  close <- getitem_close data ;;
  Sma.calculate_sma close window.

(** [get_historical_data] from the frame the broker returned. *)
Definition get_historical_data (reply : api_reply DataFrame) : DataFrame :=
  match reply with
  | ApiReturned bars => if df_empty bars then DataFrame_new else bars
  | ApiRaised => DataFrame_new
  end.

(** One iteration of [main] from the frame: the [.empty] test, then the
    first lookup of [close], inside [calculate_ema] or [calculate_sma],
    then the rest of the cycle on that column. *)
Definition ema_main_cycle (position : Q) (historical_data : DataFrame)
  : result cycle_outcome :=
  if df_empty historical_data then ret SkippedNoData
  else
    close <- getitem_close historical_data ;;
    Ema.main_cycle position close.

Definition sma_main_cycle (position : Q) (historical_data : DataFrame)
  : result cycle_outcome :=
  if df_empty historical_data then ret SkippedNoData
  else
    close <- getitem_close historical_data ;;
    Sma.main_cycle position close.

(** What the broker answers during one iteration, the bars as a frame. *)
Record poll : Type :=
  { position_reply : api_reply Q; bars_reply : api_reply DataFrame }.

(** The [while True] loop of [main]: the outcomes of the iterations that
    completed, and the exception that ended the loop if one escaped. *)
Fixpoint main_loop (cycle : Q -> DataFrame -> result cycle_outcome)
  (polls : list poll) : list cycle_outcome * option exn :=
  match polls with
  | [] => ([], None)
  | p :: polls' =>
      let position := get_position (position_reply p) in
      let historical_data := get_historical_data (bars_reply p) in
      match cycle position historical_data with
      | inl e => ([], Some e)
      | inr o =>
          let (outcomes, ended) := main_loop cycle polls' in
          (o :: outcomes, ended)
      end
  end.

Definition ema_main : list poll -> list cycle_outcome * option exn :=
  main_loop ema_main_cycle.

Definition sma_main : list poll -> list cycle_outcome * option exn :=
  main_loop sma_main_cycle.

(** The bars answer of a poll can be used: the request raised, or the
    frame is empty, or it has its [close] column. *)
Definition bars_usable (p : poll) : Prop :=
  match bars_reply p with
  | ApiRaised => True
  | ApiReturned (Without_close n) => n = O
  | ApiReturned (With_close _) => True
  end.

End Frame.

(** A bar series for [sma.py], 21 bars: the price comes from below its
    20-bar average and ends above it, while the average falls because
    the bar that leaves the window is higher than the one that enters. *)
Definition crossing_closes : list Q :=
  100 :: repeat 1 19 ++ [10].

(** * The indicator engine *)

(** ** EMA *)

(** The smoothing factor pandas derives from a span is the [2/(span+1)] of
    section 4.1 and lies in (0, 1]; with it each step of the loop is the
    convex combination of the new close and the previous value. *)

Section EwmFacts.

Variable alpha : Q.

Lemma ewm_loop_length (weighted : Q) (vals : list Q) :
  length (Pandas.ewm_loop (1 - alpha) alpha weighted vals) = length vals.
Proof.
  revert weighted; induction vals as [|cur rest IH]; intros weighted; simpl.
  - reflexivity.
  - now rewrite IH.
Qed.

Lemma ewm_loop_unfold (v0 : Q) (rest : list Q) (i : nat) :
  (i < length rest)%nat ->
  nth (S i) (v0 :: Pandas.ewm_loop (1 - alpha) alpha v0 rest) 0 =
  Pandas.ewm_step (1 - alpha) alpha
    (nth i (v0 :: Pandas.ewm_loop (1 - alpha) alpha v0 rest) 0)
    (nth (S i) (v0 :: rest) 0).
Proof.
  revert v0 i; induction rest as [|cur rest IH]; intros v0 i Hi; simpl in Hi.
  - lia.
  - destruct i as [|i].
    + reflexivity.
    + apply (IH (Pandas.ewm_step (1 - alpha) alpha v0 cur) i). lia.
Qed.

Lemma ewm_step_convex (weighted cur : Q) :
  Pandas.ewm_step (1 - alpha) alpha weighted cur
  == alpha * cur + (1 - alpha) * weighted.
Proof.
  unfold Pandas.ewm_step.
  destruct (Qeq_bool weighted cur) eqn:E.
  - apply Qeq_bool_eq in E. rewrite E. ring.
  - field. lra.
Qed.

End EwmFacts.

Lemma inject_Z_ge_1 (z : Z) : (1 <= z)%Z -> 1 <= inject_Z z.
Proof.
  intros H. change 1 with (inject_Z 1). now rewrite <- Zle_Qle.
Qed.

Lemma alpha_of_span_smoothing (span : Z) :
  (1 <= span)%Z -> alpha_of_span span == smoothing span.
Proof.
  intros H. apply inject_Z_ge_1 in H.
  unfold alpha_of_span, smoothing. field. lra.
Qed.

Lemma smoothing_range (window : Z) :
  (1 <= window)%Z -> 0 < smoothing window /\ smoothing window <= 1.
Proof.
  intros H. apply inject_Z_ge_1 in H. unfold smoothing. split.
  - apply Qlt_shift_div_l; lra.
  - apply Qle_shift_div_r; lra.
Qed.

Lemma get_center_of_mass_ok (span : Z) :
  (1 <= span)%Z ->
  Pandas.get_center_of_mass span = inr ((inject_Z span - 1) / 2).
Proof.
  intros H. unfold Pandas.get_center_of_mass.
  destruct (span <? 1)%Z eqn:E; [apply Z.ltb_lt in E; lia | reflexivity].
Qed.

Lemma get_center_of_mass_bad (span : Z) :
  (span < 1)%Z -> Pandas.get_center_of_mass span = inl ValueError.
Proof.
  intros H. unfold Pandas.get_center_of_mass.
  destruct (span <? 1)%Z eqn:E; [reflexivity | apply Z.ltb_ge in E; lia].
Qed.

Lemma calculate_ema_ok (data : list Q) (window : Z) :
  (1 <= window)%Z -> Ema.calculate_ema data window = inr (ema_series window data).
Proof.
  intros H. unfold Ema.calculate_ema, Pandas.ewm_mean.
  rewrite (get_center_of_mass_ok _ H). simpl.
  destruct data; reflexivity.
Qed.

Lemma calculate_ema_bad_window (data : list Q) (window : Z) :
  (window < 1)%Z -> Ema.calculate_ema data window = inl ValueError.
Proof.
  intros H. unfold Ema.calculate_ema, Pandas.ewm_mean.
  now rewrite (get_center_of_mass_bad _ H).
Qed.

Lemma ema_series_length (window : Z) (data : list Q) :
  length (ema_series window data) = length data.
Proof.
  destruct data as [|v0 rest]; simpl; [reflexivity|].
  now rewrite ewm_loop_length.
Qed.

Lemma ema_series_head (window : Z) (data : list Q) :
  nth 0 (ema_series window data) 0 = nth 0 data 0.
Proof. destruct data; reflexivity. Qed.

Lemma ema_series_recurrence (window : Z) (data : list Q) (i : nat) :
  (1 <= window)%Z -> (S i < length data)%nat ->
  nth (S i) (ema_series window data) 0
  == smoothing window * nth (S i) data 0
     + (1 - smoothing window) * nth i (ema_series window data) 0.
Proof.
  intros Hw Hi. destruct data as [|v0 rest]; simpl in Hi; [lia|].
  unfold ema_series. rewrite ewm_loop_unfold by lia.
  rewrite ewm_step_convex.
  set (prev := nth i _ 0). clearbody prev.
  now rewrite (alpha_of_span_smoothing _ Hw).
Qed.

(** Monotone input.  On a strictly increasing series the EMA stays at or
    below the close of the same index, so each new close pulls it up. *)

Lemma adjacent_increasing (l : list Q) :
  (forall i : nat, (S i < length l)%nat -> nth i l 0 < nth (S i) l 0) ->
  strictly_increasing l.
Proof.
  intros Hadj i j [Hij Hj]. induction j as [|j IH]; [lia|].
  destruct (Nat.eq_dec i j) as [->|Hne].
  - now apply Hadj.
  - apply Qlt_trans with (nth j l 0).
    + apply IH; lia.
    + now apply Hadj.
Qed.

Lemma Qltb_lt (x y : Q) : Qltb x y = true <-> x < y.
Proof.
  unfold Qltb. rewrite negb_true_iff, <- not_true_iff_false, Qle_bool_iff.
  split; [apply Qnot_le_lt | apply Qlt_not_le].
Qed.

Lemma Qgtb_lt (x y : Q) : Qgtb x y = true <-> y < x.
Proof. apply Qltb_lt. Qed.

Lemma Qleb_le (x y : Q) : Qleb x y = true <-> x <= y.
Proof. apply Qle_bool_iff. Qed.

Lemma Qgeb_le (x y : Q) : Qgeb x y = true <-> y <= x.
Proof. apply Qle_bool_iff. Qed.

Lemma increasingb_sound (l : list Q) :
  increasingb l = true -> strictly_increasing l.
Proof.
  intros H. apply adjacent_increasing.
  induction l as [|x [|y tl] IH]; intros i Hi; simpl in Hi; try lia.
  simpl in H. apply andb_true_iff in H as [Hxy Htl].
  destruct i as [|i].
  - simpl. now apply Qltb_lt.
  - change (nth i (y :: tl) 0 < nth (S i) (y :: tl) 0).
    apply IH; [exact Htl | simpl; lia].
Qed.

Section EmaMonotone.

Variable window : Z.
Hypothesis window_ok : (1 <= window)%Z.
Variable data : list Q.
Hypothesis data_increasing : strictly_increasing data.

Lemma ema_below_close (i : nat) :
  (i < length data)%nat -> nth i (ema_series window data) 0 <= nth i data 0.
Proof.
  induction i as [|i IH]; intros Hi.
  - rewrite ema_series_head. apply Qle_refl.
  - rewrite (ema_series_recurrence window data i window_ok Hi).
    destruct (smoothing_range window window_ok) as [Ha0 Ha1].
    assert (Hy : nth i (ema_series window data) 0 <= nth i data 0)
      by (apply IH; lia).
    assert (Hx : nth i data 0 < nth (S i) data 0)
      by (apply data_increasing; lia).
    set (a := smoothing window) in *.
    set (y := nth i (ema_series window data) 0) in *.
    set (x := nth i data 0) in *.
    set (x' := nth (S i) data 0) in *.
    assert (Hprod : 0 <= (1 - a) * (x' - y))
      by (apply Qmult_le_0_compat; lra).
    lra.
Qed.

Lemma ema_adjacent (i : nat) :
  (S i < length data)%nat ->
  nth i (ema_series window data) 0 < nth (S i) (ema_series window data) 0.
Proof.
  intros Hi.
  rewrite (ema_series_recurrence window data i window_ok Hi).
  destruct (smoothing_range window window_ok) as [Ha0 Ha1].
  assert (Hy : nth i (ema_series window data) 0 <= nth i data 0)
    by (apply ema_below_close; lia).
  assert (Hx : nth i data 0 < nth (S i) data 0)
    by (apply data_increasing; lia).
  set (a := smoothing window) in *.
  set (y := nth i (ema_series window data) 0) in *.
  set (x := nth i data 0) in *.
  set (x' := nth (S i) data 0) in *.
  assert (Hprod : 0 < a * (x' - y))
    by (apply Qmult_lt_0_compat; lra).
  lra.
Qed.

Lemma ema_series_increasing : strictly_increasing (ema_series window data).
Proof.
  apply adjacent_increasing. intros i Hi.
  rewrite ema_series_length in Hi. now apply ema_adjacent.
Qed.

End EmaMonotone.

(** ** SMA *)

Lemma Qsum_app (l1 l2 : list Q) : Qsum (l1 ++ l2) == Qsum l1 + Qsum l2.
Proof.
  induction l1 as [|x l1 IH]; simpl.
  - ring.
  - rewrite IH. ring.
Qed.

Lemma slice_length {A : Type} (values : list A) (a b : nat) :
  (b <= length values)%nat -> length (Pandas.slice values a b) = (b - a)%nat.
Proof.
  intros H. unfold Pandas.slice. rewrite length_firstn, length_skipn. lia.
Qed.

Lemma firstn_plus {A : Type} (n m : nat) (l : list A) :
  firstn (n + m) l = firstn n l ++ firstn m (skipn n l).
Proof.
  revert l; induction n as [|n IH]; intros l; simpl.
  - reflexivity.
  - destruct l as [|x l]; simpl.
    + now rewrite firstn_nil.
    + now rewrite IH.
Qed.

Lemma slice_split {A : Type} (values : list A) (a b c : nat) :
  (a <= b <= c)%nat ->
  Pandas.slice values a c = Pandas.slice values a b ++ Pandas.slice values b c.
Proof.
  intros [Hab Hbc]. unfold Pandas.slice.
  replace (c - a)%nat with ((b - a) + (c - b))%nat by lia.
  rewrite firstn_plus, skipn_skipn.
  now replace (b - a + a)%nat with b by lia.
Qed.

Lemma fold_add_mean (l : list Q) (st : Pandas.mean_state) :
  Pandas.nobs (fold_left Pandas.add_mean l st)
  = (Pandas.nobs st + Z.of_nat (length l))%Z
  /\ Pandas.sum_x (fold_left Pandas.add_mean l st) == Pandas.sum_x st + Qsum l.
Proof.
  revert st; induction l as [|x l IH]; intros st.
  - cbn [fold_left length Qsum fold_right]. split; [lia | ring].
  - cbn [fold_left]. destruct (IH (Pandas.add_mean st x)) as [Hn Hs].
    rewrite Hn, Hs. change (Qsum (x :: l)) with (x + Qsum l).
    cbn [Pandas.add_mean Pandas.nobs Pandas.sum_x length].
    split; [lia | ring].
Qed.

Lemma fold_remove_mean (l : list Q) (st : Pandas.mean_state) :
  Pandas.nobs (fold_left Pandas.remove_mean l st)
  = (Pandas.nobs st - Z.of_nat (length l))%Z
  /\ Pandas.sum_x (fold_left Pandas.remove_mean l st) == Pandas.sum_x st - Qsum l.
Proof.
  revert st; induction l as [|x l IH]; intros st.
  - cbn [fold_left length Qsum fold_right]. split; [lia | ring].
  - cbn [fold_left]. destruct (IH (Pandas.remove_mean st x)) as [Hn Hs].
    rewrite Hn, Hs. change (Qsum (x :: l)) with (x + Qsum l).
    cbn [Pandas.remove_mean Pandas.nobs Pandas.sum_x length].
    split; [lia | ring].
Qed.

Section RollingFacts.

Variable values : list Q.
Variable window : nat.

(** Setting up the first window. *)
Lemma window_state_first :
  (0 < length values)%nat ->
  window_state values window 0
    (fold_left Pandas.add_mean
       (Pandas.slice values (Pandas.window_start window 0) (Pandas.window_end 0))
       {| Pandas.nobs := 0; Pandas.sum_x := 0 |}).
Proof.
  intros Hlen. unfold window_state. cbv zeta.
  destruct (fold_add_mean
              (Pandas.slice values (Pandas.window_start window 0) (Pandas.window_end 0))
              {| Pandas.nobs := 0; Pandas.sum_x := 0 |}) as [Hn Hs].
  rewrite Hn, Hs. cbn [Pandas.nobs Pandas.sum_x]. split; [lia | ring].
Qed.

(** Sliding the window by one index. *)
Lemma window_state_next (j : nat) (st : Pandas.mean_state) :
  (S j < length values)%nat ->
  window_state values window j st ->
  window_state values window (S j)
    (fold_left Pandas.add_mean
       (Pandas.slice values (Pandas.window_end j) (Pandas.window_end (S j)))
       (fold_left Pandas.remove_mean
          (Pandas.slice values (Pandas.window_start window j)
             (Pandas.window_start window (S j)))
          st)).
Proof.
  intros Hlen [Hn Hs]. unfold window_state in *. cbv zeta in *.
  unfold Pandas.window_start, Pandas.window_end in *.
  set (left := Pandas.slice values (j + 1 - window) (S j + 1 - window)) in *.
  set (entered := Pandas.slice values (j + 1) (S j + 1)) in *.
  destruct (fold_remove_mean left st) as [Hrn Hrs].
  destruct (fold_add_mean entered (fold_left Pandas.remove_mean left st))
    as [Han Has].
  rewrite Han, Has, Hrn, Hrs, Hn, Hs.
  assert (Hsplit1 :
    Pandas.slice values (j + 1 - window) (S j + 1)
    = Pandas.slice values (j + 1 - window) (j + 1) ++ entered)
    by (apply slice_split; lia).
  assert (Hsplit2 :
    Pandas.slice values (j + 1 - window) (S j + 1)
    = left ++ Pandas.slice values (S j + 1 - window) (S j + 1))
    by (apply slice_split; lia).
  split.
  - subst left entered. rewrite !slice_length by lia. lia.
  - assert (Heq : Qsum (Pandas.slice values (j + 1 - window) (j + 1)) + Qsum entered
                  == Qsum left + Qsum (Pandas.slice values (S j + 1 - window) (S j + 1))).
    { rewrite <- !Qsum_app, <- Hsplit1, <- Hsplit2. reflexivity. }
    lra.
Qed.

(** What [calc_mean] reads off a window state. *)
Lemma calc_mean_window (i : nat) (st : Pandas.mean_state) :
  (1 <= window)%nat -> (i < length values)%nat ->
  window_state values window i st ->
  Float.equiv (Pandas.calc_mean (Z.of_nat window) st) (spec_sma_at values window i).
Proof.
  intros Hw Hi [Hn Hs]. unfold Pandas.window_start, Pandas.window_end in *.
  rewrite slice_length in Hn by lia.
  unfold Pandas.calc_mean, spec_sma_at.
  destruct (i + 1 <? window)%nat eqn:E.
  - apply Nat.ltb_lt in E.
    replace (Z.of_nat window <=? Pandas.nobs st)%Z with false
      by (symmetry; apply Z.leb_gt; lia).
    exact I.
  - apply Nat.ltb_ge in E.
    replace (Z.of_nat window <=? Pandas.nobs st)%Z with true
      by (symmetry; apply Z.leb_le; lia).
    replace (0 <? Pandas.nobs st)%Z with true
      by (symmetry; apply Z.ltb_lt; lia).
    cbn [andb Float.equiv]. unfold mean.
    rewrite slice_length by lia. rewrite Hs, Hn. reflexivity.
Qed.

Lemma roll_mean_loop_length (minp : Z) (n i : nat) (st : Pandas.mean_state) :
  length (Pandas.roll_mean_loop values window minp i n st) = n.
Proof.
  revert i st; induction n as [|n IH]; intros i st; simpl; [reflexivity|].
  now rewrite IH.
Qed.

Lemma roll_mean_loop_spec (n i : nat) (st : Pandas.mean_state) :
  (1 <= window)%nat -> (i + n = length values)%nat ->
  (i = O \/ exists j, i = S j /\ window_state values window j st) ->
  Forall2 Float.equiv
    (Pandas.roll_mean_loop values window (Z.of_nat window) i n st)
    (map (spec_sma_at values window) (seq i n)).
Proof.
  intros Hw. revert i st; induction n as [|n IH]; intros i st Hlen Hst.
  - constructor.
  - cbn [Pandas.roll_mean_loop seq map].
    set (st' := match i with O => _ | S j => _ end).
    assert (Hst' : window_state values window i st').
    { subst st'. destruct Hst as [-> | (j & -> & Hj)].
      - apply window_state_first. lia.
      - apply window_state_next; [lia | exact Hj]. }
    constructor.
    + apply calc_mean_window; [exact Hw | lia | exact Hst'].
    + apply IH; [lia | right; exists i; split; [reflexivity | exact Hst']].
Qed.

End RollingFacts.

Lemma calculate_sma_ok (data : list Q) (window : Z) :
  (0 <= window)%Z -> Sma.calculate_sma data window = inr (sma_series window data).
Proof.
  intros H. unfold Sma.calculate_sma, Pandas.rolling_mean.
  destruct (window <? 0)%Z eqn:E; [apply Z.ltb_lt in E; lia | reflexivity].
Qed.

Lemma calculate_sma_bad_window (data : list Q) (window : Z) :
  (window < 0)%Z -> Sma.calculate_sma data window = inl ValueError.
Proof.
  intros H. unfold Sma.calculate_sma, Pandas.rolling_mean.
  destruct (window <? 0)%Z eqn:E; [reflexivity | apply Z.ltb_ge in E; lia].
Qed.

Lemma sma_series_length (window : Z) (data : list Q) :
  length (sma_series window data) = length data.
Proof. apply roll_mean_loop_length. Qed.

Lemma Forall2_nth_rel {A B : Type} (R : A -> B -> Prop) (l1 : list A) (l2 : list B) :
  Forall2 R l1 l2 ->
  forall (i : nat) (d1 : A) (d2 : B),
    (i < length l1)%nat -> R (nth i l1 d1) (nth i l2 d2).
Proof.
  induction 1 as [|x y l1 l2 Hxy _ IH]; intros i d1 d2 Hi; simpl in Hi.
  - lia.
  - destruct i as [|i]; simpl; [exact Hxy | apply IH; lia].
Qed.

Lemma nth_map_seq {A : Type} (f : nat -> A) (n i : nat) (d : A) :
  (i < n)%nat -> nth i (map f (seq 0 n)) d = f i.
Proof.
  intros Hi. rewrite (nth_indep _ d (f O)) by (now rewrite length_map, length_seq).
  rewrite map_nth, seq_nth by exact Hi. reflexivity.
Qed.

(** Every sample of the SMA column is the one section 4.1 describes. *)
Lemma sma_series_at (window : Z) (data : list Q) (i : nat) (d : Float.t) :
  (1 <= window)%Z -> (i < length data)%nat ->
  Float.equiv (nth i (sma_series window data) d)
              (spec_sma_at data (Z.to_nat window) i).
Proof.
  intros Hw Hi.
  rewrite <- (nth_map_seq (spec_sma_at data (Z.to_nat window)) (length data) i Float.NaN Hi).
  apply Forall2_nth_rel; [| now rewrite sma_series_length].
  unfold sma_series.
  rewrite <- (Z2Nat.id window) at 2 by lia.
  apply roll_mean_loop_spec; [lia | lia | now left].
Qed.

Lemma sma_series_undefined (window : Z) (data : list Q) (i : nat) (d : Float.t) :
  (1 <= window)%Z -> (i < length data)%nat -> (Z.of_nat i < window - 1)%Z ->
  nth i (sma_series window data) d = Float.NaN.
Proof.
  intros Hw Hi Hlt. pose proof (sma_series_at window data i d Hw Hi) as H.
  unfold spec_sma_at in H.
  replace (i + 1 <? Z.to_nat window)%nat with true in H
    by (symmetry; apply Nat.ltb_lt; lia).
  destruct (nth i (sma_series window data) d); [contradiction | reflexivity].
Qed.

Lemma sma_series_defined (window : Z) (data : list Q) (i : nat) (d : Float.t) :
  (1 <= window)%Z -> (i < length data)%nat -> (window - 1 <= Z.of_nat i)%Z ->
  exists v : Q,
    nth i (sma_series window data) d = Some v
    /\ v == mean (Pandas.slice data (i + 1 - Z.to_nat window) (i + 1)).
Proof.
  intros Hw Hi Hge. pose proof (sma_series_at window data i d Hw Hi) as H.
  unfold spec_sma_at in H.
  replace (i + 1 <? Z.to_nat window)%nat with false in H
    by (symmetry; apply Nat.ltb_ge; lia).
  destruct (nth i (sma_series window data) d) as [v|]; [| contradiction].
  exists v. split; [reflexivity | exact H].
Qed.

(** ** Properties of the indicator engine *)

(** C4.  For a non-empty close series and a window size (at least 1, the
    sizes pandas accepts as a span), [calculate_ema] returns a series as
    long as the input, whose first value is the first close and whose
    every later value is [alpha * close[i] + (1 - alpha) * ema[i-1]] with
    [alpha = 2/(window+1)]. *)
Theorem C4_ema_seed_and_recurrence (data : list Q) (window : Z) :
  (0 < length data)%nat -> (1 <= window)%Z ->
  exists ema : list Q,
    Ema.calculate_ema data window = inr ema
    /\ length ema = length data
    /\ nth 0 ema 0 = nth 0 data 0
    /\ forall i : nat, (1 <= i < length data)%nat ->
         nth i ema 0
         == smoothing window * nth i data 0
            + (1 - smoothing window) * nth (i - 1) ema 0.
Proof.
  intros _ Hw. exists (ema_series window data).
  split; [now apply calculate_ema_ok|].
  split; [apply ema_series_length|].
  split; [apply ema_series_head|].
  intros i [Hi1 Hi]. destruct i as [|i]; [lia|].
  replace (S i - 1)%nat with i by lia.
  now apply ema_series_recurrence.
Qed.

Lemma C4_ema_seed_and_recurrence_witness :
  (0 < length [10; 12; 11])%nat /\ (1 <= 10)%Z
  /\ exists ema : list Q,
       Ema.calculate_ema [10; 12; 11] 10 = inr ema
       /\ length ema = length [10; 12; 11]
       /\ nth 0 ema 0 = nth 0 [10; 12; 11] 0
       /\ forall i : nat, (1 <= i < length [10; 12; 11])%nat ->
            nth i ema 0
            == smoothing 10 * nth i [10; 12; 11] 0
               + (1 - smoothing 10) * nth (i - 1) ema 0.
Proof.
  split; [simpl; lia|]. split; [lia|].
  apply (C4_ema_seed_and_recurrence [10; 12; 11] 10); [simpl; lia | lia].
Defined.

(** C5.  For a close series and a window size [w >= 1], [calculate_sma]
    returns a series aligned with the input that has no value at every
    index [i < w-1] and, at every index [i >= w-1], the arithmetic mean of
    the [w] closes at indices [i-w+1] through [i]. *)
Theorem C5_sma_is_windowed_mean (closes : list Q) (window : Z) :
  (1 <= window)%Z ->
  exists sma : list Float.t,
    Sma.calculate_sma closes window = inr sma
    /\ length sma = length closes
    /\ forall i : nat, (i < length closes)%nat ->
         ((Z.of_nat i < window - 1)%Z -> nth i sma (Some 0) = Float.NaN)
         /\ ((window - 1 <= Z.of_nat i)%Z ->
             let w := Pandas.slice closes (i + 1 - Z.to_nat window) (i + 1) in
             length w = Z.to_nat window
             /\ exists v : Q, nth i sma Float.NaN = Some v /\ v == mean w).
Proof.
  intros Hw. exists (sma_series window closes).
  split; [apply calculate_sma_ok; lia|].
  split; [apply sma_series_length|].
  intros i Hi. split.
  - intros Hlt. now apply sma_series_undefined.
  - intros Hge. cbv zeta. split.
    + rewrite slice_length by lia. lia.
    + now apply sma_series_defined.
Qed.

Lemma C5_sma_is_windowed_mean_witness :
  (1 <= 2)%Z
  /\ exists sma : list Float.t,
       Sma.calculate_sma [10; 10; 10; 12; 9; 9] 2 = inr sma
       /\ length sma = length [10; 10; 10; 12; 9; 9]
       /\ forall i : nat, (i < length [10; 10; 10; 12; 9; 9])%nat ->
            ((Z.of_nat i < 2 - 1)%Z -> nth i sma (Some 0) = Float.NaN)
            /\ ((2 - 1 <= Z.of_nat i)%Z ->
                let w := Pandas.slice [10; 10; 10; 12; 9; 9] (i + 1 - Z.to_nat 2) (i + 1) in
                length w = Z.to_nat 2
                /\ exists v : Q, nth i sma Float.NaN = Some v /\ v == mean w).
Proof.
  split; [lia|].
  apply (C5_sma_is_windowed_mean [10; 10; 10; 12; 9; 9] 2); lia.
Defined.

(** C7 (amended).  On an empty series that still has its [close]
    column, with a window size pandas accepts, both [calculate_ema] and
    [calculate_sma] return the empty series and raise nothing.  The
    empty frame without columns, [pd.DataFrame()], which is what
    [get_historical_data] returns when the request fails or brings no
    bars, never reaches them: [main] sees it is empty and skips the
    cycle. *)
Theorem C7_empty_close_column_gives_empty_indicator (window : Z) :
  (1 <= window)%Z ->
  Frame.df_empty (With_close []) = true
  /\ Frame.calculate_ema (With_close []) window = inr []
  /\ Frame.calculate_sma (With_close []) window = inr []
  /\ (forall position : Q,
        Frame.ema_main_cycle position Frame.DataFrame_new = inr SkippedNoData
        /\ Frame.sma_main_cycle position Frame.DataFrame_new = inr SkippedNoData).
Proof.
  intros Hw. split; [reflexivity|].
  unfold Frame.calculate_ema, Frame.calculate_sma. cbn [Frame.getitem_close bind ret].
  split; [now rewrite calculate_ema_ok|].
  split; [rewrite calculate_sma_ok by lia; reflexivity|].
  intros position. split; reflexivity.
Qed.

Lemma C7_empty_close_column_gives_empty_indicator_witness :
  (1 <= 20)%Z
  /\ Frame.df_empty (With_close []) = true
  /\ Frame.calculate_ema (With_close []) 20 = inr []
  /\ Frame.calculate_sma (With_close []) 20 = inr []
  /\ (forall position : Q,
        Frame.ema_main_cycle position Frame.DataFrame_new = inr SkippedNoData
        /\ Frame.sma_main_cycle position Frame.DataFrame_new = inr SkippedNoData).
Proof.
  split; [lia|]. apply (C7_empty_close_column_gives_empty_indicator 20); lia.
Defined.

(** On [pd.DataFrame()], the empty frame the programs themselves build,
    the lookup of [close] raises [KeyError] in both functions, with the
    windows the programs use. *)
Lemma C7_frame_without_columns_raises :
  Frame.df_empty Frame.DataFrame_new = true
  /\ Frame.calculate_ema Frame.DataFrame_new Ema.SHORT_EMA_WINDOW = inl KeyError
  /\ Frame.calculate_sma Frame.DataFrame_new Sma.SMA_WINDOW = inl KeyError
  /\ Frame.calculate_ema Frame.DataFrame_new Ema.SHORT_EMA_WINDOW <> inr []
  /\ Frame.calculate_sma Frame.DataFrame_new Sma.SMA_WINDOW <> inr [].
Proof. repeat split; discriminate. Qed.




(** * The polling cycle *)

Lemma iloc_neg_ok {A : Type} (s : list A) (k : nat) (d : A) :
  (1 <= k <= length s)%nat -> Pandas.iloc_neg s k = inr (from_end s k d).
Proof.
  intros [Hk1 Hk]. unfold Pandas.iloc_neg, from_end.
  destruct (length s <? k)%nat eqn:E; [apply Nat.ltb_lt in E; lia|].
  rewrite (nth_error_nth' s d) by lia. reflexivity.
Qed.

Lemma iloc_neg_short {A : Type} (s : list A) (k : nat) :
  (length s < k)%nat -> Pandas.iloc_neg s k = inl IndexError.
Proof.
  intros H. unfold Pandas.iloc_neg.
  destruct (length s <? k)%nat eqn:E; [reflexivity | apply Nat.ltb_ge in E; lia].
Qed.

(** ** The three ways a cycle of [ema.py] ends *)

Lemma ema_strategy_ok (data : list Q) :
  Ema.calculate_ema_crossover_strategy data Ema.SHORT_EMA_WINDOW Ema.LONG_EMA_WINDOW
  = inr {| Ema.col_close := data;
           Ema.col_ema_short := ema_series Ema.SHORT_EMA_WINDOW data;
           Ema.col_ema_long := ema_series Ema.LONG_EMA_WINDOW data;
           Ema.col_signal :=
             Ema.where_gt (ema_series Ema.SHORT_EMA_WINDOW data)
                          (ema_series Ema.LONG_EMA_WINDOW data);
           Ema.col_position :=
             Ema.diff (Ema.where_gt (ema_series Ema.SHORT_EMA_WINDOW data)
                                    (ema_series Ema.LONG_EMA_WINDOW data)) |}.
Proof.
  unfold Ema.calculate_ema_crossover_strategy.
  rewrite !calculate_ema_ok by (unfold Ema.SHORT_EMA_WINDOW, Ema.LONG_EMA_WINDOW; lia).
  reflexivity.
Qed.

Lemma ema_cycle_no_data (position : Q) :
  Ema.main_cycle position [] = inr SkippedNoData.
Proof. reflexivity. Qed.

Lemma ema_cycle_short (position : Q) (data : list Q) :
  (0 < length data < 26)%nat ->
  Ema.main_cycle position data = inr SkippedNotEnoughData.
Proof.
  intros [H0 H]. unfold Ema.main_cycle.
  destruct data as [|c data']; [simpl in H0; lia|]. cbn [empty].
  rewrite ema_strategy_ok. cbn [bind Ema.col_close].
  unfold len, Ema.LONG_EMA_WINDOW.
  destruct (Z.of_nat (length (c :: data')) <? 26)%Z eqn:E;
    [reflexivity | apply Z.ltb_ge in E; lia].
Qed.

Lemma ema_cycle_decided (position : Q) (data : list Q) :
  (26 <= length data)%nat ->
  Ema.main_cycle position data
  = inr (decision Ema.SYMBOL (ema_buy_signal data) (ema_sell_signal data) position).
Proof.
  intros H. unfold Ema.main_cycle.
  destruct data as [|c data']; [simpl in H; lia|]. cbn [empty].
  rewrite ema_strategy_ok.
  cbn [bind Ema.col_close Ema.col_ema_short Ema.col_ema_long].
  unfold len, Ema.LONG_EMA_WINDOW at 1.
  destruct (Z.of_nat (length (c :: data')) <? 26)%Z eqn:E;
    [apply Z.ltb_lt in E; lia|].
  rewrite !(iloc_neg_ok _ _ 0) by (rewrite ema_series_length; lia).
  cbn [bind]. unfold decision, ema_buy_signal, ema_sell_signal, ret. cbv zeta.
  destruct (_ && Qeq_bool position 0); [reflexivity|].
  destruct (_ && Qgtb position 0); reflexivity.
Qed.

Lemma ema_cycle_cases (position : Q) (data : list Q) :
  Ema.main_cycle position data = inr SkippedNoData
  \/ Ema.main_cycle position data = inr SkippedNotEnoughData
  \/ Ema.main_cycle position data
     = inr (decision Ema.SYMBOL (ema_buy_signal data) (ema_sell_signal data) position).
Proof.
  destruct (Nat.eq_dec (length data) 0) as [H0|H0].
  - left. destruct data; [reflexivity | discriminate].
  - destruct (Nat.lt_ge_cases (length data) 26) as [H|H].
    + right; left. apply ema_cycle_short. lia.
    + right; right. now apply ema_cycle_decided.
Qed.

(** ** The three ways a cycle of [sma.py] ends *)

Lemma sma_cycle_no_data (position : Q) :
  Sma.main_cycle position [] = inr SkippedNoData.
Proof. reflexivity. Qed.

Lemma sma_cycle_short (position : Q) (data : list Q) :
  (0 < length data < 20)%nat ->
  Sma.main_cycle position data = inr SkippedNotEnoughData.
Proof.
  intros [H0 H]. unfold Sma.main_cycle.
  destruct data as [|c data']; [simpl in H0; lia|]. cbn [empty].
  rewrite calculate_sma_ok by (unfold Sma.SMA_WINDOW; lia). cbn [bind].
  unfold len. rewrite sma_series_length. unfold Sma.SMA_WINDOW.
  destruct (Z.of_nat (length (c :: data')) <? 20)%Z eqn:E;
    [reflexivity | apply Z.ltb_ge in E; lia].
Qed.

Lemma sma_cycle_decided (position : Q) (data : list Q) :
  (20 <= length data)%nat ->
  Sma.main_cycle position data
  = inr (decision Sma.SYMBOL (sma_buy_signal data) (sma_sell_signal data) position).
Proof.
  intros H. unfold Sma.main_cycle.
  destruct data as [|c data']; [simpl in H; lia|]. cbn [empty].
  rewrite calculate_sma_ok by (unfold Sma.SMA_WINDOW; lia). cbn [bind].
  unfold len. rewrite sma_series_length. unfold Sma.SMA_WINDOW at 1.
  destruct (Z.of_nat (length (c :: data')) <? 20)%Z eqn:E;
    [apply Z.ltb_lt in E; lia|].
  rewrite (iloc_neg_ok (c :: data') 1 0) by lia.
  rewrite !(iloc_neg_ok (sma_series _ _) _ Float.NaN)
    by (rewrite sma_series_length; lia).
  cbn [bind]. unfold decision, sma_buy_signal, sma_sell_signal, ret. cbv zeta.
  destruct (_ && Qeq_bool position 0); [reflexivity|].
  destruct (_ && Qgtb position 0); reflexivity.
Qed.

Lemma sma_cycle_cases (position : Q) (data : list Q) :
  Sma.main_cycle position data = inr SkippedNoData
  \/ Sma.main_cycle position data = inr SkippedNotEnoughData
  \/ Sma.main_cycle position data
     = inr (decision Sma.SYMBOL (sma_buy_signal data) (sma_sell_signal data) position).
Proof.
  destruct (Nat.eq_dec (length data) 0) as [H0|H0].
  - left. destruct data; [reflexivity | discriminate].
  - destruct (Nat.lt_ge_cases (length data) 20) as [H|H].
    + right; left. apply sma_cycle_short. lia.
    + right; right. now apply sma_cycle_decided.
Qed.

(** ** The detector *)

Lemma Qgtb_Qltb_exclusive (x y : Q) : Qgtb x y && Qltb x y = false.
Proof.
  destruct (Qgtb x y) eqn:G; [|reflexivity].
  destruct (Qltb x y) eqn:L; [|reflexivity].
  apply Qgtb_lt in G. apply Qltb_lt in L. lra.
Qed.

Lemma Float_gt_lt_exclusive (a b : Float.t) : Float.gt a b && Float.lt a b = false.
Proof.
  destruct a as [x|], b as [y|]; try reflexivity.
  apply Qgtb_Qltb_exclusive.
Qed.

Lemma ema_signals_exclusive (data : list Q) :
  ema_buy_signal data && ema_sell_signal data = false.
Proof.
  unfold ema_buy_signal, ema_sell_signal. cbv zeta.
  set (cs := from_end (ema_series Ema.SHORT_EMA_WINDOW data) 1 0).
  set (cl := from_end (ema_series Ema.LONG_EMA_WINDOW data) 1 0).
  pose proof (Qgtb_Qltb_exclusive cs cl) as H.
  destruct (Qgtb cs cl), (Qltb cs cl); try discriminate; try reflexivity.
  now rewrite andb_false_r.
Qed.

Lemma sma_signals_exclusive (data : list Q) :
  sma_buy_signal data && sma_sell_signal data = false.
Proof.
  unfold sma_buy_signal, sma_sell_signal. cbv zeta.
  set (p := Some (from_end data 1 0)).
  set (c := from_end (sma_series Sma.SMA_WINDOW data) 1 Float.NaN).
  pose proof (Float_gt_lt_exclusive p c) as H.
  destruct (Float.gt p c), (Float.lt p c); try discriminate; try reflexivity.
  now rewrite andb_false_r.
Qed.

(** On defined samples the classification of section 4.2 reads as its
    two sentences do. *)
Lemma spec_crossover_bullish_iff (ap bp ac bc : Q) :
  spec_crossover (Some ap) (Some bp) (Some ac) (Some bc) = BULLISH
  <-> ap <= bp /\ bc < ac.
Proof.
  unfold spec_crossover. cbn [Float.le Float.gt Float.ge Float.lt Float.cmp].
  rewrite <- Qleb_le, <- Qgtb_lt.
  destruct (Qleb ap bp), (Qgtb ac bc); cbn [andb].
  - split; [now split | reflexivity].
  - split; [intros H; destruct (_ && _) in H; discriminate | intros [_ H]; discriminate].
  - split; [intros H; destruct (_ && _) in H; discriminate | intros [H _]; discriminate].
  - split; [intros H; destruct (_ && _) in H; discriminate | intros [H _]; discriminate].
Qed.

Lemma spec_crossover_bearish_iff (ap bp ac bc : Q) :
  spec_crossover (Some ap) (Some bp) (Some ac) (Some bc) = BEARISH
  <-> bp <= ap /\ ac < bc.
Proof.
  unfold spec_crossover. cbn [Float.le Float.gt Float.ge Float.lt Float.cmp].
  rewrite <- Qgeb_le, <- Qltb_lt.
  pose proof (Qgtb_Qltb_exclusive ac bc) as Hex.
  destruct (Qgtb ac bc); cbn [andb] in Hex.
  - rewrite Hex, andb_false_r.
    destruct (Qleb ap bp); cbn [andb];
      (split; [discriminate | intros [_ H]; discriminate]).
  - rewrite andb_false_r.
    destruct (Qgeb ap bp), (Qltb ac bc); cbn [andb].
    + split; [now split | reflexivity].
    + split; [discriminate | intros [_ H]; discriminate].
    + split; [discriminate | intros [H _]; discriminate].
    + split; [discriminate | intros [H _]; discriminate].
Qed.

Lemma from_end_map_Some (s : list Q) (k : nat) :
  (1 <= k <= length s)%nat ->
  from_end (map Some s) k Float.NaN = Some (from_end s k 0).
Proof.
  intros H. unfold from_end. rewrite length_map.
  rewrite (nth_indep _ Float.NaN (Some 0)) by (rewrite length_map; lia).
  apply (map_nth Some).
Qed.

(** The detector of [ema.py] is the classification of section 4.2 applied
    to the short and the long EMA. *)
Lemma ema_detector_is_spec (data : list Q) :
  (26 <= length data)%nat ->
  event_of_signals (ema_buy_signal data) (ema_sell_signal data)
  = spec_detect (map Some (ema_series Ema.SHORT_EMA_WINDOW data))
                (map Some (ema_series Ema.LONG_EMA_WINDOW data)).
Proof.
  intros H. unfold spec_detect. rewrite !length_map, !ema_series_length.
  replace (length data <? 2)%nat with false by (symmetry; apply Nat.ltb_ge; lia).
  cbn [orb].
  rewrite !from_end_map_Some by (rewrite ema_series_length; lia).
  unfold spec_crossover, event_of_signals, ema_buy_signal, ema_sell_signal.
  cbn [Float.le Float.gt Float.ge Float.lt Float.cmp]. cbv zeta.
  rewrite (andb_comm (Qleb _ _)), (andb_comm (Qgeb _ _)). reflexivity.
Qed.

(** ** The executor *)

Lemma infer_state_flat (position : Q) :
  infer_state position = Some FLAT ->
  Qeq_bool position 0 = true /\ Qgtb position 0 = false.
Proof.
  unfold infer_state. destruct (Qeq_bool position 0) eqn:E.
  - intros _. split; [reflexivity|].
    apply Qeq_bool_eq in E. apply not_true_is_false. rewrite Qgtb_lt. lra.
  - destruct (Qgtb position 0); discriminate.
Qed.

Lemma infer_state_long (position : Q) :
  infer_state position = Some LONG ->
  Qeq_bool position 0 = false /\ Qgtb position 0 = true.
Proof.
  unfold infer_state. destruct (Qeq_bool position 0); [discriminate|].
  destruct (Qgtb position 0); [now split | discriminate].
Qed.

Lemma infer_state_negative (position : Q) :
  position < 0 -> Qeq_bool position 0 = false /\ Qgtb position 0 = false.
Proof.
  intros H. split; apply not_true_is_false.
  - rewrite Qeq_bool_iff. lra.
  - rewrite Qgtb_lt. lra.
Qed.

(** With exclusive signals the decision block is the transition table. *)
Lemma decision_follows_table (symbol : string) (b s : bool) (position : Q)
  (st : State) :
  b && s = false -> infer_state position = Some st ->
  orders_of (decision symbol b s position)
  = spec_transition symbol 1 st (event_of_signals b s).
Proof.
  intros Hex Hst. unfold decision, orders_of, event_of_signals.
  destruct st.
  - destruct (infer_state_flat _ Hst) as [-> ->].
    destruct b, s; try discriminate; reflexivity.
  - destruct (infer_state_long _ Hst) as [-> ->].
    destruct b, s; try discriminate; reflexivity.
Qed.

Lemma decision_at_most_one (symbol : string) (b s : bool) (position : Q) :
  at_most_one_order (decision symbol b s position)
  /\ no_opposing_orders (decision symbol b s position).
Proof.
  unfold at_most_one_order, no_opposing_orders, decision, orders_of.
  destruct (b && Qeq_bool position 0); [|destruct (s && Qgtb position 0)]; simpl.
  - split; [lia|]. intros [_ (y & [<- | []] & Hy)]. discriminate.
  - split; [lia|]. intros [(x & [<- | []] & Hx) _]. discriminate.
  - split; [lia|]. intros [(x & [] & _) _].
Qed.

Lemma decision_negative_position (symbol : string) (b s : bool) (position : Q) :
  position < 0 -> orders_of (decision symbol b s position) = [].
Proof.
  intros H. destruct (infer_state_negative _ H) as [E G].
  unfold decision, orders_of. rewrite E, G, !andb_false_r. reflexivity.
Qed.

(** ** Properties of the executor *)

(** In a cycle of [ema.py] that reaches the detector the two signals
    are those of the data and the orders are those of the transition
    table, read at the inferred state and at the event section 4.2
    gives for the short and the long EMA. *)
Lemma ema_cycle_follows_table (position : Q) (data : list Q) (st : State) :
  infer_state position = Some st -> (26 <= length data)%nat ->
  Ema.main_cycle position data
  = inr (Decided (ema_buy_signal data) (ema_sell_signal data)
           (spec_transition Ema.SYMBOL 1 st
              (spec_detect (map Some (ema_series Ema.SHORT_EMA_WINDOW data))
                           (map Some (ema_series Ema.LONG_EMA_WINDOW data))))).
Proof.
  intros Hst Hlen. rewrite ema_cycle_decided by exact Hlen.
  rewrite <- ema_detector_is_spec by exact Hlen.
  rewrite <- (decision_follows_table Ema.SYMBOL _ _ position st
                (ema_signals_exclusive data) Hst).
  reflexivity.
Qed.


(** C3.  In every cycle of either script, whatever the bars and the
    position, at most one order is placed, never a buy together with a
    sell, and the buy signal and the sell signal are not both raised. *)
Theorem C3_at_most_one_order_per_cycle (position : Q) (data : list Q) :
  (exists o : cycle_outcome,
     Ema.main_cycle position data = inr o
     /\ at_most_one_order o /\ no_opposing_orders o /\ signals_exclusive o)
  /\ (exists o : cycle_outcome,
        Sma.main_cycle position data = inr o
        /\ at_most_one_order o /\ no_opposing_orders o /\ signals_exclusive o).
Proof.
  assert (Hskip : forall o, orders_of o = [] ->
            at_most_one_order o /\ no_opposing_orders o).
  { intros o Ho. unfold at_most_one_order, no_opposing_orders. rewrite Ho.
    split; [simpl; lia | intros [(x & [] & _) _]]. }
  split.
  - destruct (ema_cycle_cases position data) as [H | [H | H]];
      eexists; (split; [exact H|]).
    + destruct (Hskip SkippedNoData eq_refl). repeat split; auto. intros b s l E; discriminate.
    + destruct (Hskip SkippedNotEnoughData eq_refl). repeat split; auto. intros b s l E; discriminate.
    + destruct (decision_at_most_one Ema.SYMBOL (ema_buy_signal data)
                  (ema_sell_signal data) position) as [H1 H2].
      repeat split; auto. intros b s l E. unfold decision in E.
      injection E as <- <- _. apply ema_signals_exclusive.
  - destruct (sma_cycle_cases position data) as [H | [H | H]];
      eexists; (split; [exact H|]).
    + destruct (Hskip SkippedNoData eq_refl). repeat split; auto. intros b s l E; discriminate.
    + destruct (Hskip SkippedNotEnoughData eq_refl). repeat split; auto. intros b s l E; discriminate.
    + destruct (decision_at_most_one Sma.SYMBOL (sma_buy_signal data)
                  (sma_sell_signal data) position) as [H1 H2].
      repeat split; auto. intros b s l E. unfold decision in E.
      injection E as <- <- _. apply sma_signals_exclusive.
Qed.

(** C10.  In every cycle of either script in which the fetched quantity
    is negative, no order is placed, whatever the bars and hence whatever
    the event. *)
Theorem C10_short_position_places_no_order (position : Q) (data : list Q) :
  position < 0 ->
  (exists o : cycle_outcome,
     Ema.main_cycle position data = inr o /\ orders_of o = [])
  /\ (exists o : cycle_outcome,
        Sma.main_cycle position data = inr o /\ orders_of o = []).
Proof.
  intros Hneg. split.
  - destruct (ema_cycle_cases position data) as [H | [H | H]];
      eexists; (split; [exact H|]); try reflexivity.
    now apply decision_negative_position.
  - destruct (sma_cycle_cases position data) as [H | [H | H]];
      eexists; (split; [exact H|]); try reflexivity.
    now apply decision_negative_position.
Qed.

Lemma C10_short_position_places_no_order_witness :
  (-1 # 1) < 0
  /\ (exists o : cycle_outcome,
        Ema.main_cycle (-1 # 1) (repeat 5 26 ++ [6]) = inr o /\ orders_of o = [])
  /\ (exists o : cycle_outcome,
        Sma.main_cycle (-1 # 1) (repeat 5 26 ++ [6]) = inr o /\ orders_of o = []).
Proof.
  split; [reflexivity|].
  apply (C10_short_position_places_no_order (-1 # 1) (repeat 5 26 ++ [6])).
  reflexivity.
Defined.

(** ** Undefined samples *)

Lemma leading_defined_lt2 (l : list Float.t) :
  (2 <= length l)%nat -> (leading_defined l < 2)%nat ->
  nth 0 l Float.NaN = Float.NaN \/ nth 1 l Float.NaN = Float.NaN.
Proof.
  destruct l as [|[a|] [|[b|] r]]; simpl; intros Hlen Hlead; try lia.
  - now right.
  - now left.
  - now left.
Qed.

Lemma trailing_defined_lt2 (s : list Float.t) :
  (2 <= length s)%nat -> (trailing_defined s < 2)%nat ->
  from_end s 1 Float.NaN = Float.NaN \/ from_end s 2 Float.NaN = Float.NaN.
Proof.
  intros Hlen Htr. unfold from_end.
  rewrite <- (rev_nth s Float.NaN) by lia.
  rewrite <- (rev_nth s Float.NaN (n := 1)) by lia.
  apply leading_defined_lt2; [now rewrite length_rev | exact Htr].
Qed.

Lemma sma_signals_undefined (data : list Q) :
  from_end (sma_series Sma.SMA_WINDOW data) 1 Float.NaN = Float.NaN
  \/ from_end (sma_series Sma.SMA_WINDOW data) 2 Float.NaN = Float.NaN ->
  sma_buy_signal data = false /\ sma_sell_signal data = false.
Proof.
  unfold sma_buy_signal, sma_sell_signal. cbv zeta.
  intros [-> | ->]; cbn [Float.gt Float.lt Float.le Float.ge Float.cmp Float.NaN].
  - split; reflexivity.
  - split; apply andb_false_r.
Qed.

(** With exactly as many bars as the window the last SMA sample is the
    only one defined. *)
Lemma sma_window_many_bars (data : list Q) :
  len data = Sma.SMA_WINDOW ->
  trailing_defined (sma_series Sma.SMA_WINDOW data) = 1%nat.
Proof.
  unfold len, Sma.SMA_WINDOW. intros Hlen.
  assert (Hn : length data = 20%nat) by lia.
  unfold trailing_defined.
  pose proof (rev_nth (sma_series 20 data) Float.NaN (n := 0)) as H0.
  pose proof (rev_nth (sma_series 20 data) Float.NaN (n := 1)) as H1.
  rewrite sma_series_length, Hn in H0, H1.
  specialize (H0 ltac:(lia)). specialize (H1 ltac:(lia)).
  destruct (sma_series_defined 20 data 19 Float.NaN) as (v & Hv & _); try lia.
  change (20 - 2)%nat with 18%nat in H1. change (20 - 1)%nat with 19%nat in H0.
  rewrite (sma_series_undefined 20 data 18 Float.NaN) in H1 by lia.
  rewrite Hv in H0.
  assert (Hr : length (rev (sma_series 20 data)) = 20%nat)
    by (now rewrite length_rev, sma_series_length).
  destruct (rev (sma_series 20 data)) as [|a [|b r]]; simpl in Hr; try lia.
  simpl in H0, H1. subst a b. reflexivity.
Qed.

(** C6.  Whenever the SMA column has fewer than two defined samples at
    its end, a cycle of [sma.py] detects no event and places no order,
    whatever the latest price. *)
Theorem C6_undefined_samples_give_no_event
  (position : Q) (closes : list Q) (sma : list Float.t) :
  Sma.calculate_sma closes Sma.SMA_WINDOW = inr sma ->
  (trailing_defined sma < 2)%nat ->
  exists o : cycle_outcome,
    Sma.main_cycle position closes = inr o
    /\ event_of o = NONE /\ orders_of o = [].
Proof.
  intros Hsma Htr.
  rewrite calculate_sma_ok in Hsma by (unfold Sma.SMA_WINDOW; lia).
  injection Hsma as <-.
  destruct (Nat.eq_dec (length closes) 0) as [H0|H0].
  - destruct closes; [|discriminate].
    exists SkippedNoData. now rewrite sma_cycle_no_data.
  - destruct (Nat.lt_ge_cases (length closes) 20) as [H|H].
    + exists SkippedNotEnoughData. rewrite sma_cycle_short by lia. now repeat split.
    + eexists. split; [now apply sma_cycle_decided|].
      destruct (sma_signals_undefined closes) as [-> ->].
      * apply trailing_defined_lt2; [rewrite sma_series_length; lia | exact Htr].
      * now split.
Qed.

Lemma C6_undefined_samples_give_no_event_witness :
  Sma.calculate_sma (repeat 1 19 ++ [100]) Sma.SMA_WINDOW
  = inr (repeat Float.NaN 19 ++ [Some (119 # 20)])
  /\ (trailing_defined (repeat Float.NaN 19 ++ [Some (119 # 20)]) < 2)%nat
  /\ exists o : cycle_outcome,
       Sma.main_cycle 0 (repeat 1 19 ++ [100]) = inr o
       /\ event_of o = NONE /\ orders_of o = [].
Proof.
  split; [reflexivity|]. split; [vm_compute; lia|].
  apply (C6_undefined_samples_give_no_event 0 (repeat 1 19 ++ [100])
           (repeat Float.NaN 19 ++ [Some (119 # 20)])).
  - reflexivity.
  - vm_compute; lia.
Defined.

(** ** The detector of [sma.py] against section 4.2 *)

(** On a steady pair of samples section 4.2 gives NONE. *)
Lemma spec_crossover_steady (a b : Float.t) : spec_crossover a b a b = NONE.
Proof.
  unfold spec_crossover.
  destruct a as [x|], b as [y|]; try reflexivity.
  cbn [Float.le Float.gt Float.ge Float.lt Float.cmp].
  unfold Qleb, Qgtb, Qgeb, Qltb.
  destruct (Qle_bool x y), (Qle_bool y x); reflexivity.
Qed.

(** The detector of [ema.py] raises no signal when neither EMA moved
    between the last two samples. *)
Lemma ema_detector_steady (data : list Q) :
  from_end (ema_series Ema.SHORT_EMA_WINDOW data) 1 0
  == from_end (ema_series Ema.SHORT_EMA_WINDOW data) 2 0 ->
  from_end (ema_series Ema.LONG_EMA_WINDOW data) 1 0
  == from_end (ema_series Ema.LONG_EMA_WINDOW data) 2 0 ->
  event_of_signals (ema_buy_signal data) (ema_sell_signal data) = NONE.
Proof.
  intros Hs Hl. unfold ema_buy_signal, ema_sell_signal. cbv zeta.
  unfold Qleb, Qgtb, Qgeb, Qltb. rewrite <- Hs, <- Hl.
  destruct (Qle_bool _ _), (Qle_bool _ _); reflexivity.
Qed.

(** The detector of [sma.py] raises no signal when the price sits on the
    average at the current bar. *)
Lemma sma_detector_tie (data : list Q) :
  Float.equiv (Some (from_end data 1 0))
              (from_end (sma_series Sma.SMA_WINDOW data) 1 Float.NaN) ->
  event_of_signals (sma_buy_signal data) (sma_sell_signal data) = NONE.
Proof.
  unfold sma_buy_signal, sma_sell_signal. cbv zeta.
  destruct (from_end (sma_series Sma.SMA_WINDOW data) 1 Float.NaN) as [c|];
    [|contradiction].
  cbn [Float.equiv Float.gt Float.lt Float.cmp]. intros Heq.
  unfold Qgtb, Qltb. rewrite Heq.
  replace (Qle_bool c c) with true by (symmetry; apply Qle_bool_iff; lra).
  reflexivity.
Qed.

(** C1.  The detector of [sma.py] on [rising_closes]: the price was
    above the average at the previous bar (20 against 10.5) and is above
    it at the current one (21 against 11.5), so section 4.2 classifies
    the transition as NONE; the cycle raises the buy signal and, flat,
    places a BUY, because it compares the previous average with the
    current average and never reads the previous price. *)
Theorem C1_sma_detector_fires_without_crossing :
  let sma := sma_series Sma.SMA_WINDOW rising_closes in
  from_end rising_closes 2 0 = 20
  /\ Float.equiv (from_end sma 2 Float.NaN) (Some (21 # 2))
  /\ from_end rising_closes 1 0 = 21
  /\ Float.equiv (from_end sma 1 Float.NaN) (Some (23 # 2))
  /\ spec_detect (map Some rising_closes) sma = NONE
  /\ Sma.main_cycle 0 rising_closes
     = inr (Decided true false [place_order Sma.SYMBOL 1 buy]).
Proof.
  vm_compute. repeat split; reflexivity.
Qed.

(** C8.  The detector of [sma.py] on [steady_closes]: the last two
    closes are equal (5 and 5), the last two averages are equal (1.4 and
    1.4) and the price is above the average on both bars, so nothing
    flips and section 4.2 gives NONE; the cycle raises the buy signal
    and, flat, places a BUY. *)
Theorem C8_sma_detector_fires_on_steady_input :
  let sma := sma_series Sma.SMA_WINDOW steady_closes in
  from_end steady_closes 1 0 = from_end steady_closes 2 0
  /\ from_end sma 1 Float.NaN = from_end sma 2 Float.NaN
  /\ Float.equiv (from_end sma 1 Float.NaN) (Some (7 # 5))
  /\ spec_detect (map Some steady_closes) sma = NONE
  /\ Sma.main_cycle 0 steady_closes
     = inr (Decided true false [place_order Sma.SYMBOL 1 buy]).
Proof.
  vm_compute. repeat split; reflexivity.
Qed.

(** * Worked examples *)

(** The docstring of [calculate_ema]: prices 10 and 12 with a span of 10
    give 10 and then [2/11 * 12 + 9/11 * 10]. *)
Example ema_docstring_example :
  exists e0 e1 : Q,
    Ema.calculate_ema [10; 12] 10 = inr [e0; e1]
    /\ e0 == 10 /\ e1 == (2 # 11) * 12 + (9 # 11) * 10.
Proof.
  eexists; eexists. split; [reflexivity|]. split; reflexivity.
Qed.

(** The scenario of section 8: closes 10, 10, 10, 12, 9, 9 with windows 2
    and 4. *)
Example sma_scenario_short_window :
  exists sma : list Float.t,
    Sma.calculate_sma [10; 10; 10; 12; 9; 9] 2 = inr sma
    /\ Forall2 Float.equiv sma
         [Float.NaN; Some 10; Some 10; Some 11; Some (21 # 2); Some 9].
Proof.
  eexists. split; [reflexivity|]. repeat constructor.
Qed.

Example sma_scenario_long_window :
  exists sma : list Float.t,
    Sma.calculate_sma [10; 10; 10; 12; 9; 9] 4 = inr sma
    /\ Forall2 Float.equiv sma
         [Float.NaN; Float.NaN; Float.NaN; Some (21 # 2); Some (41 # 4); Some 10].
Proof.
  eexists. split; [reflexivity|]. repeat constructor.
Qed.

(** A window of 0 leaves every sample undefined; a negative window and a
    span below 1 are refused. *)
Example sma_zero_window :
  Sma.calculate_sma [10; 10; 12] 0 = inr [Float.NaN; Float.NaN; Float.NaN].
Proof. reflexivity. Qed.

Example indicator_bad_windows :
  Sma.calculate_sma [10; 10; 12] (-1) = inl ValueError
  /\ Ema.calculate_ema [10; 10; 12] 0 = inl ValueError.
Proof. split; reflexivity. Qed.

(** Cycles of [ema.py] on 26 flat bars followed by a move: entering when
    flat, not entering again when long, leaving when long, and not
    selling when flat. *)
Example ema_cycle_enters_when_flat :
  Ema.main_cycle 0 (repeat 5 26 ++ [6])
  = inr (Decided true false [place_order "AAPL" 1 buy]).
Proof. reflexivity. Qed.

Example ema_cycle_no_second_entry :
  Ema.main_cycle 1 (repeat 5 26 ++ [6]) = inr (Decided true false []).
Proof. reflexivity. Qed.

Example ema_cycle_leaves_when_long :
  Ema.main_cycle 1 (repeat 5 26 ++ [7; 2])
  = inr (Decided false true [place_order "AAPL" 1 sell]).
Proof. reflexivity. Qed.

Example ema_cycle_no_sell_when_flat :
  Ema.main_cycle 0 (repeat 5 26 ++ [7; 2]) = inr (Decided false true []).
Proof. reflexivity. Qed.

Example ema_cycle_skips_short_history :
  Ema.main_cycle 0 (repeat 5 24 ++ [6]) = inr SkippedNotEnoughData.
Proof. reflexivity. Qed.

(** * Further properties of the indicator engine *)

(** ** The indicators stay within the range of the closes *)

Lemma alpha_of_span_range (span : Z) :
  (1 <= span)%Z -> 0 < alpha_of_span span /\ alpha_of_span span <= 1.
Proof.
  intros H. rewrite (alpha_of_span_smoothing _ H). now apply smoothing_range.
Qed.

Lemma convex_within (lo hi a w c : Q) :
  0 < a -> a <= 1 -> within lo hi w -> within lo hi c ->
  within lo hi (a * c + (1 - a) * w).
Proof.
  unfold within. intros Ha0 Ha1 [Hw1 Hw2] [Hc1 Hc2].
  assert (0 <= a * (c - lo)) by (apply Qmult_le_0_compat; lra).
  assert (0 <= (1 - a) * (w - lo)) by (apply Qmult_le_0_compat; lra).
  assert (0 <= a * (hi - c)) by (apply Qmult_le_0_compat; lra).
  assert (0 <= (1 - a) * (hi - w)) by (apply Qmult_le_0_compat; lra).
  split; lra.
Qed.

Lemma within_Qeq (lo hi x y : Q) : x == y -> within lo hi y -> within lo hi x.
Proof. unfold within. intros ->. tauto. Qed.

Lemma ewm_loop_within (lo hi a : Q) (vals : list Q) (weighted : Q) :
  0 < a -> a <= 1 -> within lo hi weighted -> Forall (within lo hi) vals ->
  Forall (within lo hi) (Pandas.ewm_loop (1 - a) a weighted vals).
Proof.
  intros Ha0 Ha1. revert weighted.
  induction vals as [|cur rest IH]; intros weighted Hw Hvals; simpl.
  - constructor.
  - inversion Hvals as [|? ? Hcur Hrest]; subst.
    assert (Hstep : within lo hi (Pandas.ewm_step (1 - a) a weighted cur)).
    { eapply within_Qeq; [apply ewm_step_convex|]. now apply convex_within. }
    constructor; [exact Hstep | now apply IH].
Qed.

Lemma ema_series_within (lo hi : Q) (window : Z) (data : list Q) :
  (1 <= window)%Z -> Forall (within lo hi) data ->
  Forall (within lo hi) (ema_series window data).
Proof.
  intros Hw Hdata. destruct (alpha_of_span_range window Hw) as [Ha0 Ha1].
  destruct data as [|v0 rest]; simpl; [constructor|].
  inversion Hdata as [|? ? Hv0 Hrest]; subst.
  constructor; [exact Hv0 | now apply ewm_loop_within].
Qed.

Lemma Qsum_within (lo hi : Q) (l : list Q) :
  Forall (within lo hi) l ->
  inject_Z (Z.of_nat (length l)) * lo <= Qsum l
  /\ Qsum l <= inject_Z (Z.of_nat (length l)) * hi.
Proof.
  induction 1 as [|x l [Hx1 Hx2] _ [IH1 IH2]].
  - change (Qsum []) with 0. change (inject_Z (Z.of_nat (length (@nil Q)))) with 0.
    split; lra.
  - change (Qsum (x :: l)) with (x + Qsum l).
    rewrite length_cons, Nat2Z.inj_succ. unfold Z.succ.
    rewrite inject_Z_plus. change (inject_Z 1) with 1.
    set (n := inject_Z (Z.of_nat (length l))) in *.
    split; nra.
Qed.

Lemma mean_within (lo hi : Q) (l : list Q) :
  (0 < length l)%nat -> Forall (within lo hi) l -> within lo hi (mean l).
Proof.
  intros Hlen Hl. destruct (Qsum_within lo hi l Hl) as [H1 H2].
  unfold mean.
  assert (Hn : 0 < inject_Z (Z.of_nat (length l))).
  { change 0 with (inject_Z 0). rewrite <- Zlt_Qlt. lia. }
  split.
  - apply Qle_shift_div_l; [exact Hn | lra].
  - apply Qle_shift_div_r; [exact Hn | lra].
Qed.

Lemma in_slice {A : Type} (values : list A) (a b : nat) (x : A) :
  In x (Pandas.slice values a b) -> In x values.
Proof.
  unfold Pandas.slice. intros Hx.
  rewrite <- (firstn_skipn a values). apply in_or_app. right.
  rewrite <- (firstn_skipn (b - a) (skipn a values)). apply in_or_app. now left.
Qed.

Lemma Forall_slice {A : Type} (P : A -> Prop) (values : list A) (a b : nat) :
  Forall P values -> Forall P (Pandas.slice values a b).
Proof.
  intros H. apply Forall_forall. intros x Hx.
  apply (proj1 (Forall_forall P values) H). now apply (in_slice values a b).
Qed.

Lemma sma_series_within (lo hi : Q) (window : Z) (data : list Q) :
  (1 <= window)%Z -> Forall (within lo hi) data ->
  Forall (defined_within lo hi) (sma_series window data).
Proof.
  intros Hw Hdata. apply Forall_forall. intros x Hx.
  destruct (In_nth _ _ Float.NaN Hx) as (i & Hi & <-).
  rewrite sma_series_length in Hi.
  destruct (Z_lt_le_dec (Z.of_nat i) (window - 1)) as [Hlt | Hge].
  - now rewrite sma_series_undefined.
  - destruct (sma_series_defined window data i Float.NaN Hw Hi Hge) as (v & -> & Hv).
    cbn [defined_within]. eapply within_Qeq; [exact Hv|].
    apply mean_within; [rewrite slice_length by lia; lia | now apply Forall_slice].
Qed.

(** ** New bars never rewrite earlier indicator values *)

Lemma ewm_loop_app (f a weighted : Q) (vals more : list Q) :
  exists tail : list Q,
    Pandas.ewm_loop f a weighted (vals ++ more)
    = Pandas.ewm_loop f a weighted vals ++ tail
    /\ length tail = length more.
Proof.
  revert weighted. induction vals as [|cur rest IH]; intros weighted.
  - exists (Pandas.ewm_loop f a weighted more). split; [reflexivity|].
    clear. revert weighted. induction more as [|m more IH]; intros w; simpl;
      [reflexivity | now rewrite IH].
  - destruct (IH (Pandas.ewm_step f a weighted cur)) as (tail & Heq & Hlen).
    exists tail. split; [|exact Hlen]. simpl. now rewrite Heq.
Qed.

Lemma slice_app_l {A : Type} (data more : list A) (a b : nat) :
  (b <= length data)%nat ->
  Pandas.slice (data ++ more) a b = Pandas.slice data a b.
Proof.
  intros Hb. unfold Pandas.slice.
  rewrite skipn_app, firstn_app, length_skipn.
  replace (b - a - (length data - a))%nat with 0%nat by lia.
  now rewrite firstn_0, app_nil_r.
Qed.

Lemma roll_mean_loop_ext (v1 v2 : list Q) (window : nat) (minp : Z)
  (n i : nat) (st : Pandas.mean_state) :
  (forall a b : nat, (b <= i + n)%nat -> Pandas.slice v1 a b = Pandas.slice v2 a b) ->
  Pandas.roll_mean_loop v1 window minp i n st
  = Pandas.roll_mean_loop v2 window minp i n st.
Proof.
  revert i st. induction n as [|n IH]; intros i st Hext; [reflexivity|].
  cbn [Pandas.roll_mean_loop]. unfold Pandas.window_end.
  assert (Hst :
    match i with
    | O => fold_left Pandas.add_mean
             (Pandas.slice v1 (Pandas.window_start window i) (i + 1))
             {| Pandas.nobs := 0; Pandas.sum_x := 0 |}
    | S j => fold_left Pandas.add_mean (Pandas.slice v1 (j + 1) (i + 1))
               (fold_left Pandas.remove_mean
                  (Pandas.slice v1 (Pandas.window_start window j)
                     (Pandas.window_start window i)) st)
    end
    = match i with
      | O => fold_left Pandas.add_mean
               (Pandas.slice v2 (Pandas.window_start window i) (i + 1))
               {| Pandas.nobs := 0; Pandas.sum_x := 0 |}
      | S j => fold_left Pandas.add_mean (Pandas.slice v2 (j + 1) (i + 1))
                 (fold_left Pandas.remove_mean
                    (Pandas.slice v2 (Pandas.window_start window j)
                       (Pandas.window_start window i)) st)
      end).
  { destruct i as [|j].
    - now rewrite Hext by lia.
    - rewrite (Hext (j + 1)%nat) by lia.
      rewrite (Hext (Pandas.window_start window j))
        by (unfold Pandas.window_start; lia).
      reflexivity. }
  rewrite Hst. f_equal. apply IH. intros a b Hb. apply Hext. lia.
Qed.

Lemma roll_mean_loop_split (values : list Q) (window : nat) (minp : Z)
  (n1 n2 i : nat) (st : Pandas.mean_state) :
  exists tail : list Float.t,
    Pandas.roll_mean_loop values window minp i (n1 + n2) st
    = Pandas.roll_mean_loop values window minp i n1 st ++ tail
    /\ length tail = n2.
Proof.
  revert i st. induction n1 as [|n1 IH]; intros i st.
  - eexists. split; [reflexivity | apply roll_mean_loop_length].
  - cbn [Nat.add Pandas.roll_mean_loop].
    match goal with
    | |- context [Pandas.roll_mean_loop values window minp (S i) (n1 + n2) ?s] =>
        destruct (IH (S i) s) as (tail & Heq & Hlen)
    end.
    exists tail. split; [|exact Hlen]. now rewrite Heq.
Qed.

(** X3.  Appending bars to a series leaves the indicator values of the
    earlier bars as they were: the columns of the longer series start
    with the columns of the shorter one. *)
Theorem indicators_are_prefix_stable (data more : list Q) (window : Z) :
  (1 <= window)%Z ->
  (exists (ema tail : list Q),
     Ema.calculate_ema data window = inr ema
     /\ Ema.calculate_ema (data ++ more) window = inr (ema ++ tail)
     /\ length tail = length more)
  /\ (exists (sma tail : list Float.t),
        Sma.calculate_sma data window = inr sma
        /\ Sma.calculate_sma (data ++ more) window = inr (sma ++ tail)
        /\ length tail = length more).
Proof.
  intros Hw. split.
  - rewrite !calculate_ema_ok by exact Hw.
    destruct data as [|v0 rest].
    + exists [], (ema_series window more). repeat split.
      apply ema_series_length.
    + cbn [app ema_series].
      destruct (ewm_loop_app (1 - alpha_of_span window) (alpha_of_span window)
                  v0 rest more) as (tail & Heq & Hlen).
      eexists; exists tail. split; [reflexivity|]. split; [|exact Hlen].
      now rewrite Heq.
  - rewrite !calculate_sma_ok by lia. unfold sma_series.
    rewrite length_app.
    destruct (roll_mean_loop_split (data ++ more) (Z.to_nat window) window
                (length data) (length more) 0
                {| Pandas.nobs := 0; Pandas.sum_x := 0 |}) as (tail & Heq & Hlen).
    eexists; exists tail. split; [reflexivity|]. split; [|exact Hlen].
    rewrite Heq. do 2 f_equal. apply roll_mean_loop_ext.
    intros a b Hb. apply slice_app_l. lia.
Qed.

Lemma indicators_are_prefix_stable_witness :
  (1 <= 2)%Z
  /\ (exists (ema tail : list Q),
        Ema.calculate_ema [10; 12; 11] 2 = inr ema
        /\ Ema.calculate_ema ([10; 12; 11] ++ [14; 13]) 2 = inr (ema ++ tail)
        /\ length tail = length [14; 13])
  /\ (exists (sma tail : list Float.t),
        Sma.calculate_sma [10; 12; 11] 2 = inr sma
        /\ Sma.calculate_sma ([10; 12; 11] ++ [14; 13]) 2 = inr (sma ++ tail)
        /\ length tail = length [14; 13]).
Proof.
  split; [lia|].
  apply (indicators_are_prefix_stable [10; 12; 11] [14; 13] 2). lia.
Defined.

(** ** A window of one bar *)

Lemma alpha_of_span_one : alpha_of_span 1 == 1.
Proof. reflexivity. Qed.

Lemma ewm_loop_identity (a : Q) (vals : list Q) (weighted : Q) :
  a == 1 -> Forall2 Qeq (Pandas.ewm_loop (1 - a) a weighted vals) vals.
Proof.
  intros Ha. revert weighted. induction vals as [|cur rest IH]; intros weighted; simpl.
  - constructor.
  - constructor; [|apply IH].
    rewrite ewm_step_convex, Ha. ring.
Qed.

Lemma slice_single (values : list Q) (i : nat) :
  (i < length values)%nat -> Pandas.slice values i (i + 1) = [nth i values 0].
Proof.
  intros Hi. unfold Pandas.slice. replace (i + 1 - i)%nat with 1%nat by lia.
  revert i Hi. induction values as [|x values IH]; intros i Hi; simpl in Hi; [lia|].
  destruct i as [|i].
  - now destruct values.
  - simpl. apply IH. lia.
Qed.

(** X4.  With a window of 1 both indicators return the closes themselves:
    the EMA column equals the close column value by value and the SMA
    column has every sample defined and equal to the close. *)
Theorem window_of_one_returns_the_closes (data : list Q) :
  (exists ema : list Q,
     Ema.calculate_ema data 1 = inr ema /\ Forall2 Qeq ema data)
  /\ (exists sma : list Float.t,
        Sma.calculate_sma data 1 = inr sma
        /\ length sma = length data
        /\ forall i : nat, (i < length data)%nat ->
             exists v : Q, nth i sma Float.NaN = Some v /\ v == nth i data 0).
Proof.
  split.
  - exists (ema_series 1 data). split; [apply calculate_ema_ok; lia|].
    destruct data as [|v0 rest]; simpl; constructor;
      [reflexivity | apply ewm_loop_identity, alpha_of_span_one].
  - exists (sma_series 1 data). split; [apply calculate_sma_ok; lia|].
    split; [apply sma_series_length|].
    intros i Hi.
    destruct (sma_series_defined 1 data i Float.NaN) as (v & Hv & Hmean); try lia.
    exists v. split; [exact Hv|]. rewrite Hmean.
    change (Z.to_nat 1) with 1%nat.
    replace (i + 1 - 1)%nat with i by lia.
    rewrite slice_single by exact Hi.
    unfold mean. cbn [Qsum fold_right length Z.of_nat]. field.
Qed.

(** ** A flat market *)

Lemma from_end_in {A : Type} (s : list A) (k : nat) (d : A) :
  (1 <= k <= length s)%nat -> In (from_end s k d) s.
Proof. intros H. unfold from_end. apply nth_In. lia. Qed.

Lemma within_point (c x : Q) : within c c x -> x == c.
Proof. unfold within. intros [H1 H2]. lra. Qed.

Lemma event_none_signals (b s : bool) :
  event_of_signals b s = NONE -> b = false /\ s = false.
Proof. destruct b, s; simpl; intros H; try discriminate; now split. Qed.

Lemma ema_flat_market (c : Q) (data : list Q) :
  (2 <= length data)%nat -> Forall (within c c) data ->
  ema_buy_signal data = false /\ ema_sell_signal data = false.
Proof.
  intros Hlen Hflat. apply event_none_signals.
  assert (Hs : forall (w : Z) (k : nat), (1 <= w)%Z -> (1 <= k <= 2)%nat ->
            from_end (ema_series w data) k 0 == c).
  { intros w k Hw Hk. apply within_point.
    apply (proj1 (Forall_forall _ _) (ema_series_within c c w data Hw Hflat)).
    apply from_end_in. rewrite ema_series_length. lia. }
  unfold Ema.SHORT_EMA_WINDOW, Ema.LONG_EMA_WINDOW in *.
  apply ema_detector_steady;
    unfold Ema.SHORT_EMA_WINDOW, Ema.LONG_EMA_WINDOW;
    rewrite !Hs by lia; reflexivity.
Qed.

Lemma sma_flat_market (c : Q) (data : list Q) :
  (20 <= length data)%nat -> Forall (within c c) data ->
  sma_buy_signal data = false /\ sma_sell_signal data = false.
Proof.
  intros Hlen Hflat. apply event_none_signals. apply sma_detector_tie.
  assert (Hp : from_end data 1 0 == c).
  { apply within_point. apply (proj1 (Forall_forall _ _) Hflat).
    apply from_end_in. lia. }
  unfold Sma.SMA_WINDOW.
  destruct (sma_series_defined 20 data (length data - 1) Float.NaN)
    as (v & Hv & _); try lia.
  unfold from_end at 2. rewrite sma_series_length, Hv. cbn [Float.equiv].
  rewrite Hp. symmetry. apply within_point.
  pose proof (sma_series_within c c 20 data ltac:(lia) Hflat) as Hall.
  pose proof (proj1 (Forall_forall _ _) Hall (Some v)) as Hin.
  apply Hin. rewrite <- Hv. apply nth_In. rewrite sma_series_length. lia.
Qed.

(** X5.  When every close of the fetched series is the same price, a
    cycle of either script places no order, whatever the position. *)
Theorem flat_market_places_no_order (c position : Q) (data : list Q) :
  Forall (within c c) data ->
  (exists o : cycle_outcome,
     Ema.main_cycle position data = inr o /\ orders_of o = [])
  /\ (exists o : cycle_outcome,
        Sma.main_cycle position data = inr o /\ orders_of o = []).
Proof.
  intros Hflat. split.
  - destruct (Nat.lt_ge_cases (length data) 26) as [H|H].
    + destruct data as [|x data'].
      * exists SkippedNoData. now split.
      * exists SkippedNotEnoughData. split; [|reflexivity].
        apply ema_cycle_short. simpl in *. lia.
    + eexists. split; [now apply ema_cycle_decided|].
      destruct (ema_flat_market c data) as [-> ->]; [lia | exact Hflat |].
      reflexivity.
  - destruct (Nat.lt_ge_cases (length data) 20) as [H|H].
    + destruct data as [|x data'].
      * exists SkippedNoData. now split.
      * exists SkippedNotEnoughData. split; [|reflexivity].
        apply sma_cycle_short. simpl in *. lia.
    + eexists. split; [now apply sma_cycle_decided|].
      destruct (sma_flat_market c data) as [-> ->]; [lia | exact Hflat |].
      reflexivity.
Qed.

Lemma flat_market_places_no_order_witness :
  Forall (within 7 7) (repeat 7 30)
  /\ (exists o : cycle_outcome,
        Ema.main_cycle 0 (repeat 7 30) = inr o /\ orders_of o = [])
  /\ (exists o : cycle_outcome,
        Sma.main_cycle 0 (repeat 7 30) = inr o /\ orders_of o = []).
Proof.
  assert (H : Forall (within 7 7) (repeat 7 30))
    by (repeat constructor; discriminate).
  split; [exact H|].
  apply (flat_market_places_no_order 7 0 (repeat 7 30)). exact H.
Defined.

(** * The frame of [calculate_ema_crossover_strategy] *)

Lemma where_gt_length (a b : list Q) :
  length a = length b -> length (Ema.where_gt a b) = length a.
Proof.
  revert b. induction a as [|x a IH]; intros [|y b] H; simpl in *; try lia.
  now rewrite IH by lia.
Qed.

Lemma where_gt_nth (a b : list Q) (i : nat) :
  length a = length b -> (i < length a)%nat ->
  nth i (Ema.where_gt a b) 0%Z
  = if Qgtb (nth i a 0) (nth i b 0) then 1%Z else 0%Z.
Proof.
  revert b i. induction a as [|x a IH]; intros [|y b] i H Hi; simpl in *; try lia.
  destruct i as [|i]; [reflexivity | apply IH; lia].
Qed.

Lemma diff_from_length (prev : Z) (s : list Z) :
  length (Ema.diff_from prev s) = length s.
Proof.
  revert prev. induction s as [|x s IH]; intros prev; simpl;
    [reflexivity | now rewrite IH].
Qed.

Lemma diff_length (s : list Z) : length (Ema.diff s) = length s.
Proof. destruct s; simpl; [reflexivity | now rewrite diff_from_length]. Qed.

Lemma diff_from_nth (prev : Z) (s : list Z) (i : nat) (d : option Z) :
  (i < length s)%nat ->
  nth i (Ema.diff_from prev s) d = Some (nth i s 0 - nth i (prev :: s) 0)%Z.
Proof.
  revert prev i. induction s as [|x s IH]; intros prev i Hi; simpl in Hi; [lia|].
  destruct i as [|i]; [reflexivity|].
  cbn [Ema.diff_from]. change (nth (S i) (?h :: ?t) d) with (nth i t d).
  rewrite IH by lia. reflexivity.
Qed.

Lemma diff_nth_succ (s : list Z) (i : nat) (d : option Z) :
  (S i < length s)%nat ->
  nth (S i) (Ema.diff s) d = Some (nth (S i) s 0 - nth i s 0)%Z.
Proof.
  destruct s as [|x s]; simpl; intros Hi; [lia|].
  rewrite diff_from_nth by lia. reflexivity.
Qed.

Lemma strategy_ok (data : list Q) (short_window long_window : Z) :
  (1 <= short_window)%Z -> (1 <= long_window)%Z ->
  Ema.calculate_ema_crossover_strategy data short_window long_window
  = inr {| Ema.col_close := data;
           Ema.col_ema_short := ema_series short_window data;
           Ema.col_ema_long := ema_series long_window data;
           Ema.col_signal :=
             Ema.where_gt (ema_series short_window data)
                          (ema_series long_window data);
           Ema.col_position :=
             Ema.diff (Ema.where_gt (ema_series short_window data)
                                    (ema_series long_window data)) |}.
Proof.
  intros Hs Hl. unfold Ema.calculate_ema_crossover_strategy.
  rewrite !calculate_ema_ok by assumption. reflexivity.
Qed.

(** X6.  With both windows at least 1 the strategy frame is returned and
    its four computed columns are index-aligned with the closes. *)
Theorem strategy_columns_are_aligned (data : list Q) (short_window long_window : Z) :
  (1 <= short_window)%Z -> (1 <= long_window)%Z ->
  exists df : Ema.strategy_frame,
    Ema.calculate_ema_crossover_strategy data short_window long_window = inr df
    /\ Ema.col_close df = data
    /\ length (Ema.col_ema_short df) = length data
    /\ length (Ema.col_ema_long df) = length data
    /\ length (Ema.col_signal df) = length data
    /\ length (Ema.col_position df) = length data.
Proof.
  intros Hs Hl. eexists. split; [now apply strategy_ok|].
  cbn [Ema.col_close Ema.col_ema_short Ema.col_ema_long Ema.col_signal Ema.col_position].
  rewrite diff_length, where_gt_length, !ema_series_length
    by (now rewrite !ema_series_length).
  repeat split.
Qed.

Lemma strategy_columns_are_aligned_witness :
  (1 <= 2)%Z /\ (1 <= 4)%Z
  /\ exists df : Ema.strategy_frame,
       Ema.calculate_ema_crossover_strategy [10; 12; 11; 14] 2 4 = inr df
       /\ Ema.col_close df = [10; 12; 11; 14]
       /\ length (Ema.col_ema_short df) = length [10; 12; 11; 14]
       /\ length (Ema.col_ema_long df) = length [10; 12; 11; 14]
       /\ length (Ema.col_signal df) = length [10; 12; 11; 14]
       /\ length (Ema.col_position df) = length [10; 12; 11; 14].
Proof.
  split; [lia|]. split; [lia|].
  apply (strategy_columns_are_aligned [10; 12; 11; 14] 2 4); lia.
Defined.

Lemma strategy_bad_window (data : list Q) (short_window long_window : Z) :
  (short_window < 1)%Z \/ (long_window < 1)%Z ->
  Ema.calculate_ema_crossover_strategy data short_window long_window
  = inl ValueError.
Proof.
  intros Hbad. unfold Ema.calculate_ema_crossover_strategy.
  destruct (Z_lt_le_dec short_window 1) as [Hs | Hs].
  - now rewrite calculate_ema_bad_window.
  - rewrite calculate_ema_ok by exact Hs. cbn [bind].
    rewrite calculate_ema_bad_window by lia. reflexivity.
Qed.

Lemma strategy_returned_windows (data : list Q) (short_window long_window : Z)
  (df : Ema.strategy_frame) :
  Ema.calculate_ema_crossover_strategy data short_window long_window = inr df ->
  (1 <= short_window)%Z /\ (1 <= long_window)%Z.
Proof.
  intros Hdf.
  destruct (Z_lt_le_dec short_window 1) as [H1|H1];
    [rewrite strategy_bad_window in Hdf by (now left); discriminate|].
  destruct (Z_lt_le_dec long_window 1) as [H2|H2];
    [rewrite strategy_bad_window in Hdf by (now right); discriminate|].
  now split.
Qed.

(** ** What the [position] column marks *)

Lemma Qgtb_false_le (x y : Q) : Qgtb x y = false <-> x <= y.
Proof.
  unfold Qgtb. rewrite negb_false_iff. apply Qle_bool_iff.
Qed.

Lemma signal_nth (data : list Q) (short_window long_window : Z) (i : nat) :
  (i < length data)%nat ->
  nth i (Ema.where_gt (ema_series short_window data)
                      (ema_series long_window data)) 0%Z
  = if Qgtb (nth i (ema_series short_window data) 0)
            (nth i (ema_series long_window data) 0)
    then 1%Z else 0%Z.
Proof.
  intros Hi. apply where_gt_nth; rewrite !ema_series_length; [reflexivity | exact Hi].
Qed.

Lemma position_nth (data : list Q) (short_window long_window : Z) (i : nat) :
  (S i < length data)%nat ->
  nth (S i) (Ema.diff (Ema.where_gt (ema_series short_window data)
                                    (ema_series long_window data))) None
  = Some (Z.sub
            (if Qgtb (nth (S i) (ema_series short_window data) 0)
                     (nth (S i) (ema_series long_window data) 0)
             then 1%Z else 0%Z)
            (if Qgtb (nth i (ema_series short_window data) 0)
                     (nth i (ema_series long_window data) 0)
             then 1%Z else 0%Z)).
Proof.
  intros Hi. rewrite diff_nth_succ
    by (rewrite where_gt_length; rewrite !ema_series_length; [exact Hi | reflexivity]).
  rewrite !signal_nth by lia. reflexivity.
Qed.

(** X8.  In the strategy frame the first row of [position] is NaN; at a
    later row it is 1 exactly when the short EMA is above the long one at
    that row and was at or below it at the row before, and -1 exactly
    when the short EMA is at or below the long one at that row and was
    above it at the row before. *)
Theorem position_column_marks_crossings
  (data : list Q) (short_window long_window : Z) (i : nat) :
  (1 <= short_window)%Z -> (1 <= long_window)%Z -> (1 <= i < length data)%nat ->
  exists df : Ema.strategy_frame,
    Ema.calculate_ema_crossover_strategy data short_window long_window = inr df
    /\ nth 0 (Ema.col_position df) (Some 0%Z) = None
    /\ (nth i (Ema.col_position df) None = Some 1%Z
        <-> nth i (Ema.col_ema_long df) 0 < nth i (Ema.col_ema_short df) 0
            /\ nth (i - 1) (Ema.col_ema_short df) 0
               <= nth (i - 1) (Ema.col_ema_long df) 0)
    /\ (nth i (Ema.col_position df) None = Some (-1)%Z
        <-> nth i (Ema.col_ema_short df) 0 <= nth i (Ema.col_ema_long df) 0
            /\ nth (i - 1) (Ema.col_ema_long df) 0
               < nth (i - 1) (Ema.col_ema_short df) 0).
Proof.
  intros Hs Hl [Hi1 Hi]. eexists. split; [now apply strategy_ok|].
  cbn [Ema.col_ema_short Ema.col_ema_long Ema.col_position].
  split.
  { destruct data as [|v0 rest]; [simpl in Hi; lia|]. reflexivity. }
  destruct i as [|i]; [lia|]. replace (S i - 1)%nat with i by lia.
  rewrite position_nth by exact Hi.
  rewrite <- !Qgtb_lt, <- !Qgtb_false_le.
  destruct (Qgtb (nth (S i) _ 0) (nth (S i) _ 0)), (Qgtb (nth i _ 0) (nth i _ 0));
    cbn; split; split; try discriminate; try tauto;
    try (now intros [? ?]; discriminate).
Qed.

Lemma position_column_marks_crossings_witness :
  (1 <= 1)%Z /\ (1 <= 2)%Z /\ (1 <= 2 < length [1; 5; 1; 5])%nat
  /\ exists df : Ema.strategy_frame,
       Ema.calculate_ema_crossover_strategy [1; 5; 1; 5] 1 2 = inr df
       /\ nth 0 (Ema.col_position df) (Some 0%Z) = None
       /\ (nth 2 (Ema.col_position df) None = Some 1%Z
           <-> nth 2 (Ema.col_ema_long df) 0 < nth 2 (Ema.col_ema_short df) 0
               /\ nth (2 - 1) (Ema.col_ema_short df) 0
                  <= nth (2 - 1) (Ema.col_ema_long df) 0)
       /\ (nth 2 (Ema.col_position df) None = Some (-1)%Z
           <-> nth 2 (Ema.col_ema_short df) 0 <= nth 2 (Ema.col_ema_long df) 0
               /\ nth (2 - 1) (Ema.col_ema_long df) 0
                  < nth (2 - 1) (Ema.col_ema_short df) 0).
Proof.
  split; [lia|]. split; [lia|]. split; [simpl; lia|].
  apply (position_column_marks_crossings [1; 5; 1; 5] 1 2 2); simpl; lia.
Defined.

(** X9.  In a cycle of [ema.py] that reaches the detector, the buy signal
    is raised exactly when the last row of the strategy frame's
    [position] column is 1.  The sell signal is not the mirror image: when
    it is raised, the last row of [position] is -1 exactly when the short
    EMA was strictly above the long one at the previous row, and 0 when
    the two were equal there. *)
Theorem buy_signal_is_last_position_mark (position : Q) (data : list Q) :
  (26 <= length data)%nat ->
  exists (df : Ema.strategy_frame) (b s : bool) (orders : list Order),
    Ema.calculate_ema_crossover_strategy data
      Ema.SHORT_EMA_WINDOW Ema.LONG_EMA_WINDOW = inr df
    /\ Ema.main_cycle position data = inr (Decided b s orders)
    /\ (b = true <-> from_end (Ema.col_position df) 1 None = Some 1%Z)
    /\ (s = true ->
        (from_end (Ema.col_position df) 1 None = Some (-1)%Z
         <-> from_end (Ema.col_ema_long df) 2 0 < from_end (Ema.col_ema_short df) 2 0)
        /\ (from_end (Ema.col_position df) 1 None = Some 0%Z
            <-> from_end (Ema.col_ema_long df) 2 0 == from_end (Ema.col_ema_short df) 2 0)).
Proof.
  intros Hlen. eexists; eexists; eexists; eexists.
  split; [apply ema_strategy_ok|].
  split; [rewrite ema_cycle_decided by exact Hlen; reflexivity|].
  cbn [Ema.col_ema_short Ema.col_ema_long Ema.col_position].
  unfold from_end, ema_buy_signal, ema_sell_signal. cbv zeta. unfold from_end.
  rewrite diff_length, where_gt_length, !ema_series_length
    by (now rewrite !ema_series_length).
  destruct (length data) as [|[|n]] eqn:En; try lia.
  replace (S (S n) - 1)%nat with (S n) by lia.
  replace (S (S n) - 2)%nat with n by lia.
  rewrite position_nth by lia.
  set (cs := nth (S n) (ema_series Ema.SHORT_EMA_WINDOW data) 0).
  set (cl := nth (S n) (ema_series Ema.LONG_EMA_WINDOW data) 0).
  set (ps := nth n (ema_series Ema.SHORT_EMA_WINDOW data) 0).
  set (pl := nth n (ema_series Ema.LONG_EMA_WINDOW data) 0).
  rewrite <- (Qgtb_lt ps pl).
  unfold Qltb, Qgeb, Qleb, Qgtb.
  assert (Heq : pl == ps <-> Qle_bool ps pl = true /\ Qle_bool pl ps = true).
  { rewrite !Qle_bool_iff. split; [intros ->; split; apply Qle_refl | intros [? ?]; lra]. }
  assert (Htot : Qle_bool cs cl = true \/ Qle_bool cl cs = true).
  { destruct (Qlt_le_dec cl cs) as [H|H]; [right | left]; apply Qle_bool_iff; lra. }
  rewrite Heq.
  destruct (Qle_bool cs cl), (Qle_bool ps pl), (Qle_bool cl cs), (Qle_bool pl ps);
    cbn; repeat split; try discriminate; try tauto;
    try (intros [? ?]; discriminate); destruct Htot; discriminate.
Qed.

Lemma buy_signal_is_last_position_mark_witness :
  (26 <= length (repeat 5 26 ++ [6]))%nat
  /\ exists (df : Ema.strategy_frame) (b s : bool) (orders : list Order),
       Ema.calculate_ema_crossover_strategy (repeat 5 26 ++ [6])
         Ema.SHORT_EMA_WINDOW Ema.LONG_EMA_WINDOW = inr df
       /\ Ema.main_cycle 0 (repeat 5 26 ++ [6]) = inr (Decided b s orders)
       /\ (b = true <-> from_end (Ema.col_position df) 1 None = Some 1%Z)
       /\ (s = true ->
           (from_end (Ema.col_position df) 1 None = Some (-1)%Z
            <-> from_end (Ema.col_ema_long df) 2 0 < from_end (Ema.col_ema_short df) 2 0)
           /\ (from_end (Ema.col_position df) 1 None = Some 0%Z
               <-> from_end (Ema.col_ema_long df) 2 0
                   == from_end (Ema.col_ema_short df) 2 0)).
Proof.
  split; [simpl; lia|].
  apply (buy_signal_is_last_position_mark 0 (repeat 5 26 ++ [6])). simpl; lia.
Defined.

(** ** Marks alternate *)

Lemma where_gt_bits (a b : list Q) (i : nat) :
  nth i (Ema.where_gt a b) 0%Z = 0%Z \/ nth i (Ema.where_gt a b) 0%Z = 1%Z.
Proof.
  revert b i. induction a as [|x a IH]; intros b i.
  - left. now destruct i.
  - destruct b as [|y b]; [left; now destruct i|].
    destruct i as [|i]; simpl.
    + destruct (Qgtb x y); [now right | now left].
    + apply IH.
Qed.

(** In a series of zeros and ones, between a value [v] and a later
    different value the series leaves [v] at some step. *)
Lemma bits_change_between (s : list Z) (v : Z) (i m : nat) :
  (forall k : nat, nth k s 0%Z = 0%Z \/ nth k s 0%Z = 1%Z) ->
  (i < m)%nat -> nth i s 0%Z = v -> nth m s 0%Z <> v ->
  exists k : nat,
    (i < k <= m)%nat /\ nth (k - 1) s 0%Z = v /\ nth k s 0%Z <> v.
Proof.
  intros Hbits Him Hi. induction m as [|m IH]; intros Hm; [lia|].
  destruct (Z.eq_dec (nth m s 0%Z) v) as [Heq | Hne].
  - exists (S m). replace (S m - 1)%nat with m by lia. repeat split; try lia; assumption.
  - assert (Hlt : (i < m)%nat).
    { destruct (Nat.eq_dec i m) as [-> | ?]; [contradiction | lia]. }
    destruct (IH Hlt Hne) as (k & Hk & H1 & H2).
    exists k. repeat split; try lia; assumption.
Qed.

(** X10.  In the [position] column two marks of the same sign (two 1s, or
    two -1s) always have a mark of the opposite sign at a row strictly
    between them. *)
Theorem position_marks_alternate
  (data : list Q) (short_window long_window : Z) (df : Ema.strategy_frame)
  (i j : nat) (m : Z) :
  Ema.calculate_ema_crossover_strategy data short_window long_window = inr df ->
  (1 <= i < j)%nat -> (j < length data)%nat ->
  m = 1%Z \/ m = (-1)%Z ->
  nth i (Ema.col_position df) None = Some m ->
  nth j (Ema.col_position df) None = Some m ->
  exists k : nat,
    (i < k < j)%nat /\ nth k (Ema.col_position df) None = Some (- m)%Z.
Proof.
  intros Hdf [Hi1 Hij] Hj Hm Hpi Hpj.
  destruct (strategy_returned_windows _ _ _ _ Hdf) as [Hs Hl]. rewrite (strategy_ok data _ _ Hs Hl) in Hdf.
  injection Hdf as <-. cbn [Ema.col_position] in *.
  set (sig := Ema.where_gt (ema_series short_window data)
                           (ema_series long_window data)) in *.
  assert (Hlen : length sig = length data)
    by (unfold sig; rewrite where_gt_length; now rewrite !ema_series_length).
  assert (Hbits : forall k, nth k sig 0%Z = 0%Z \/ nth k sig 0%Z = 1%Z)
    by (intros k; apply where_gt_bits).
  destruct i as [|i]; [lia|]. destruct j as [|j]; [lia|].
  rewrite diff_nth_succ in Hpi, Hpj by lia.
  injection Hpi as Hpi. injection Hpj as Hpj.
  set (v := (if Z.eq_dec m 1 then 1 else 0)%Z).
  assert (Hvi : nth (S i) sig 0%Z = v /\ nth j sig 0%Z <> v).
  { unfold v. destruct (Hbits (S i)), (Hbits i), (Hbits (S j)), (Hbits j);
      destruct Hm as [-> | ->]; cbn; lia. }
  destruct Hvi as [Hvi Hvj].
  assert (Hlt : (S i < j)%nat).
  { destruct (Nat.eq_dec (S i) j) as [<- | ?]; [contradiction | lia]. }
  destruct (bits_change_between sig v (S i) j Hbits Hlt Hvi Hvj)
    as (k & Hk & Hk1 & Hk2).
  exists k. split; [lia|].
  destruct k as [|k]; [lia|]. replace (S k - 1)%nat with k in Hk1 by lia.
  rewrite diff_nth_succ by lia. f_equal.
  unfold v in *. destruct (Hbits (S k)); destruct Hm as [-> | ->]; cbn in *; lia.
Qed.

Lemma position_marks_alternate_witness :
  exists df : Ema.strategy_frame,
    Ema.calculate_ema_crossover_strategy [1; 5; 1; 5] 1 2 = inr df
    /\ (1 <= 1 < 3)%nat /\ (3 < length [1; 5; 1; 5])%nat
    /\ (1 = 1 \/ 1 = -1)%Z
    /\ nth 1 (Ema.col_position df) None = Some 1%Z
    /\ nth 3 (Ema.col_position df) None = Some 1%Z
    /\ exists k : nat,
         (1 < k < 3)%nat /\ nth k (Ema.col_position df) None = Some (- 1)%Z.
Proof.
  eexists. split; [reflexivity|].
  split; [lia|]. split; [simpl; lia|]. split; [now left|].
  split; [reflexivity|]. split; [reflexivity|].
  refine (position_marks_alternate [1; 5; 1; 5] 1 2 _ 1 3 1 eq_refl _ _ _ _ _);
    [lia | simpl; lia | now left | reflexivity | reflexivity].
Defined.

(** X11.  With the same window for both averages the strategy frame marks
    nothing: [signal] is 0 at every row and [position] is 0 at every row
    after the first. *)
Theorem equal_windows_never_signal (data : list Q) (window : Z) (i : nat) :
  (1 <= window)%Z -> (i < length data)%nat ->
  exists df : Ema.strategy_frame,
    Ema.calculate_ema_crossover_strategy data window window = inr df
    /\ nth i (Ema.col_signal df) 1%Z = 0%Z
    /\ ((1 <= i)%nat -> nth i (Ema.col_position df) None = Some 0%Z).
Proof.
  intros Hw Hi. eexists. split; [now apply strategy_ok|].
  cbn [Ema.col_signal Ema.col_position].
  assert (Hgt : forall x : Q, Qgtb x x = false)
    by (intros x; apply Qgtb_false_le, Qle_refl).
  split.
  - rewrite (nth_indep _ 1%Z 0%Z)
      by (rewrite where_gt_length; now rewrite !ema_series_length).
    rewrite signal_nth by exact Hi. now rewrite Hgt.
  - intros Hi1. destruct i as [|i]; [lia|].
    rewrite position_nth by exact Hi. now rewrite !Hgt.
Qed.

Lemma equal_windows_never_signal_witness :
  (1 <= 12)%Z /\ (2 < length [1; 5; 1; 5])%nat
  /\ exists df : Ema.strategy_frame,
       Ema.calculate_ema_crossover_strategy [1; 5; 1; 5] 12 12 = inr df
       /\ nth 2 (Ema.col_signal df) 1%Z = 0%Z
       /\ ((1 <= 2)%nat -> nth 2 (Ema.col_position df) None = Some 0%Z).
Proof.
  split; [lia|]. split; [simpl; lia|].
  apply (equal_windows_never_signal [1; 5; 1; 5] 12 2); [lia | simpl; lia].
Defined.

(** * The polling loop *)

Lemma ema_cycle_returns (position : Q) (data : list Q) :
  exists o : cycle_outcome,
    Ema.main_cycle position data = inr o
    /\ (o = SkippedNoData \/ o = SkippedNotEnoughData
        \/ o = decision Ema.SYMBOL (ema_buy_signal data) (ema_sell_signal data) position).
Proof.
  destruct (ema_cycle_cases position data) as [H | [H | H]];
    eexists; (split; [exact H|]); tauto.
Qed.

Lemma sma_cycle_returns (position : Q) (data : list Q) :
  exists o : cycle_outcome,
    Sma.main_cycle position data = inr o
    /\ (o = SkippedNoData \/ o = SkippedNotEnoughData
        \/ o = decision Sma.SYMBOL (sma_buy_signal data) (sma_sell_signal data) position).
Proof.
  destruct (sma_cycle_cases position data) as [H | [H | H]];
    eexists; (split; [exact H|]); tauto.
Qed.

Lemma decision_orders_length (symbol : string) (b s : bool) (position : Q) :
  (length (orders_of (decision symbol b s position)) <= 1)%nat.
Proof. apply decision_at_most_one. Qed.

Lemma main_loop_completes (cycle : Q -> list Q -> result cycle_outcome)
  (polls : list poll) :
  (forall position data, exists o,
      cycle position data = inr o /\ (length (orders_of o) <= 1)%nat) ->
  exists outcomes : list cycle_outcome,
    main_loop cycle polls = (outcomes, None)
    /\ length outcomes = length polls
    /\ (length (orders_placed outcomes) <= length polls)%nat.
Proof.
  intros Hcycle. induction polls as [|p polls IH].
  - exists []. repeat split. simpl. lia.
  - destruct IH as (outcomes & Hrun & Hlen & Hord).
    destruct (Hcycle (get_position (position_reply p))
                (get_historical_data (bars_reply p))) as (o & Ho & Hone).
    exists (o :: outcomes). cbn [main_loop]. rewrite Ho, Hrun.
    split; [reflexivity|]. split; [simpl; lia|].
    unfold orders_placed in *. cbn [map concat]. rewrite length_app.
    simpl. lia.
Qed.

Lemma frame_loop_runs (cycle : Q -> DataFrame -> result cycle_outcome)
  (polls : list Frame.poll) (bad : Frame.poll) (rest : list Frame.poll) (e : exn) :
  (forall p : Frame.poll, Frame.bars_usable p ->
     exists o : cycle_outcome,
       cycle (get_position (Frame.position_reply p))
             (Frame.get_historical_data (Frame.bars_reply p)) = inr o
       /\ (length (orders_of o) <= 1)%nat) ->
  cycle (get_position (Frame.position_reply bad))
        (Frame.get_historical_data (Frame.bars_reply bad)) = inl e ->
  Forall Frame.bars_usable polls ->
  exists outcomes : list cycle_outcome,
    Frame.main_loop cycle polls = (outcomes, None)
    /\ length outcomes = length polls
    /\ (length (orders_placed outcomes) <= length polls)%nat
    /\ Frame.main_loop cycle (polls ++ bad :: rest) = (outcomes, Some e).
Proof.
  intros Hcycle Hbad Hpolls. induction Hpolls as [|p polls Hp _ IH].
  - exists []. cbn [app Frame.main_loop]. rewrite Hbad. repeat split. simpl. lia.
  - destruct IH as (outcomes & Hrun & Hlen & Hord & Hend).
    destruct (Hcycle p Hp) as (o & Ho & Hone).
    exists (o :: outcomes). cbn [app Frame.main_loop]. rewrite Ho, Hrun, Hend.
    split; [reflexivity|]. split; [simpl; lia|]. split; [|reflexivity].
    unfold orders_placed in *. cbn [map concat]. rewrite length_app.
    simpl. lia.
Qed.

Lemma frame_ema_cycle_usable (p : Frame.poll) :
  Frame.bars_usable p ->
  exists o : cycle_outcome,
    Frame.ema_main_cycle (get_position (Frame.position_reply p))
      (Frame.get_historical_data (Frame.bars_reply p)) = inr o
    /\ (length (orders_of o) <= 1)%nat.
Proof.
  unfold Frame.bars_usable. destruct (Frame.bars_reply p) as [|[n | close]].
  - intros _. exists SkippedNoData. split; [reflexivity | simpl; lia].
  - intros ->. exists SkippedNoData. split; [reflexivity | simpl; lia].
  - intros _. destruct close as [|c close].
    + exists SkippedNoData. split; [reflexivity | simpl; lia].
    + cbn [Frame.get_historical_data Frame.df_empty empty Frame.ema_main_cycle
           Frame.getitem_close bind ret].
      destruct (ema_cycle_returns (get_position (Frame.position_reply p)) (c :: close))
        as (o & Ho & [-> | [-> | ->]]);
        exists o || eexists; (split; [exact Ho|]); simpl; try lia.
      apply decision_orders_length.
Qed.

Lemma frame_sma_cycle_usable (p : Frame.poll) :
  Frame.bars_usable p ->
  exists o : cycle_outcome,
    Frame.sma_main_cycle (get_position (Frame.position_reply p))
      (Frame.get_historical_data (Frame.bars_reply p)) = inr o
    /\ (length (orders_of o) <= 1)%nat.
Proof.
  unfold Frame.bars_usable. destruct (Frame.bars_reply p) as [|[n | close]].
  - intros _. exists SkippedNoData. split; [reflexivity | simpl; lia].
  - intros ->. exists SkippedNoData. split; [reflexivity | simpl; lia].
  - intros _. destruct close as [|c close].
    + exists SkippedNoData. split; [reflexivity | simpl; lia].
    + cbn [Frame.get_historical_data Frame.df_empty empty Frame.sma_main_cycle
           Frame.getitem_close bind ret].
      destruct (sma_cycle_returns (get_position (Frame.position_reply p)) (c :: close))
        as (o & Ho & [-> | [-> | ->]]);
        exists o || eexists; (split; [exact Ho|]); simpl; try lia.
      apply decision_orders_length.
Qed.

(** X12.  As long as every bars request raises, returns an empty frame
    or returns a frame with a [close] column of numbers, no exception
    ends the loop of either script, whatever the position lookups do:
    every iteration completes, and a run of [n] iterations places at most
    [n] orders.  The first non-empty frame without a [close] column ends
    the loop with [KeyError], because [calculate_ema] and [calculate_sma]
    are called outside any [try]. *)
Theorem polling_loop_ends_only_on_missing_close
  (polls rest : list Frame.poll) (position : api_reply Q) (n : nat) :
  Forall Frame.bars_usable polls ->
  let bad := {| Frame.position_reply := position;
                Frame.bars_reply := ApiReturned (Without_close (S n)) |} in
  (exists outcomes : list cycle_outcome,
     Frame.ema_main polls = (outcomes, None)
     /\ length outcomes = length polls
     /\ (length (orders_placed outcomes) <= length polls)%nat
     /\ Frame.ema_main (polls ++ bad :: rest) = (outcomes, Some KeyError))
  /\ (exists outcomes : list cycle_outcome,
        Frame.sma_main polls = (outcomes, None)
        /\ length outcomes = length polls
        /\ (length (orders_placed outcomes) <= length polls)%nat
        /\ Frame.sma_main (polls ++ bad :: rest) = (outcomes, Some KeyError)).
Proof.
  intros Hpolls bad. split.
  - apply frame_loop_runs; [apply frame_ema_cycle_usable | reflexivity | exact Hpolls].
  - apply frame_loop_runs; [apply frame_sma_cycle_usable | reflexivity | exact Hpolls].
Qed.

Lemma polling_loop_ends_only_on_missing_close_witness :
  let polls :=
    [ {| Frame.position_reply := ApiRaised;
         Frame.bars_reply := ApiReturned (With_close (repeat 5 26 ++ [6])) |};
      {| Frame.position_reply := ApiReturned 1;
         Frame.bars_reply := ApiRaised |};
      {| Frame.position_reply := ApiReturned 1;
         Frame.bars_reply := ApiReturned (Without_close 0) |} ] in
  let bad := {| Frame.position_reply := ApiReturned 1;
                Frame.bars_reply := ApiReturned (Without_close (S 99)) |} in
  Forall Frame.bars_usable polls
  /\ (exists outcomes : list cycle_outcome,
        Frame.ema_main polls = (outcomes, None)
        /\ length outcomes = length polls
        /\ (length (orders_placed outcomes) <= length polls)%nat
        /\ Frame.ema_main (polls ++ bad :: []) = (outcomes, Some KeyError))
  /\ (exists outcomes : list cycle_outcome,
        Frame.sma_main polls = (outcomes, None)
        /\ length outcomes = length polls
        /\ (length (orders_placed outcomes) <= length polls)%nat
        /\ Frame.sma_main (polls ++ bad :: []) = (outcomes, Some KeyError)).
Proof.
  cbv zeta.
  assert (H : Forall Frame.bars_usable
    [ {| Frame.position_reply := ApiRaised;
         Frame.bars_reply := ApiReturned (With_close (repeat 5 26 ++ [6])) |};
      {| Frame.position_reply := ApiReturned 1;
         Frame.bars_reply := ApiRaised |};
      {| Frame.position_reply := ApiReturned 1;
         Frame.bars_reply := ApiReturned (Without_close 0) |} ])
    by (repeat constructor).
  split; [exact H|].
  apply (polling_loop_ends_only_on_missing_close _ [] (ApiReturned 1) 99 H).
Defined.

Lemma decision_when_flat (symbol : string) (b s : bool) :
  orders_of (decision symbol b s 0)
  = if b then [place_order symbol 1 buy] else [].
Proof.
  unfold decision, orders_of.
  change (Qeq_bool 0 0) with true. change (Qgtb 0 0) with false.
  rewrite andb_true_r, andb_false_r. reflexivity.
Qed.

(** X13.  When the position lookup raises, an iteration of either script
    acts as if nothing were held: it never places a SELL, and it places
    one BUY of quantity 1 exactly when its buy signal is raised. *)
Theorem failed_position_lookup_acts_flat (bars : api_reply (list Q)) :
  let p := {| position_reply := ApiRaised; bars_reply := bars |} in
  (exists o : cycle_outcome,
     ema_main [p] = ([o], None)
     /\ (forall x, In x (orders_of o) -> order_side x = buy)
     /\ (forall b s orders, o = Decided b s orders ->
         orders = if b then [place_order Ema.SYMBOL 1 buy] else []))
  /\ (exists o : cycle_outcome,
        sma_main [p] = ([o], None)
        /\ (forall x, In x (orders_of o) -> order_side x = buy)
        /\ (forall b s orders, o = Decided b s orders ->
            orders = if b then [place_order Sma.SYMBOL 1 buy] else [])).
Proof.
  cbv zeta. unfold ema_main, sma_main.
  cbn [main_loop position_reply bars_reply get_position].
  split.
  - destruct (ema_cycle_returns 0 (get_historical_data bars))
      as (o & Ho & [-> | [-> | ->]]);
      rewrite Ho; eexists; (split; [reflexivity|]);
      try (split; [intros x [] | intros b s l E; discriminate]).
    split.
    + intros x. rewrite decision_when_flat.
      destruct (ema_buy_signal _); [intros [<- | []]; reflexivity | intros []].
    + intros b s l E. pose proof (decision_when_flat Ema.SYMBOL
        (ema_buy_signal (get_historical_data bars))
        (ema_sell_signal (get_historical_data bars))) as Hd.
      rewrite E in Hd. unfold decision in E. injection E as <- _ _. exact Hd.
  - destruct (sma_cycle_returns 0 (get_historical_data bars))
      as (o & Ho & [-> | [-> | ->]]);
      rewrite Ho; eexists; (split; [reflexivity|]);
      try (split; [intros x [] | intros b s l E; discriminate]).
    split.
    + intros x. rewrite decision_when_flat.
      destruct (sma_buy_signal _); [intros [<- | []]; reflexivity | intros []].
    + intros b s l E. pose proof (decision_when_flat Sma.SYMBOL
        (sma_buy_signal (get_historical_data bars))
        (sma_sell_signal (get_historical_data bars))) as Hd.
      rewrite E in Hd. unfold decision in E. injection E as <- _ _. exact Hd.
Qed.

(** X14.  When the bars request raises or returns no bars, an iteration
    of either script skips for lack of data and places no order, whatever
    the position lookup answered. *)
Theorem failed_bars_request_skips (position : api_reply Q) (bars : api_reply (list Q)) :
  bars = ApiRaised \/ bars = ApiReturned [] ->
  let p := {| position_reply := position; bars_reply := bars |} in
  ema_main [p] = ([SkippedNoData], None)
  /\ sma_main [p] = ([SkippedNoData], None)
  /\ orders_placed [SkippedNoData] = [].
Proof.
  intros [-> | ->]; repeat split.
Qed.

Lemma failed_bars_request_skips_witness :
  (@ApiRaised (list Q) = ApiRaised \/ @ApiRaised (list Q) = ApiReturned [])
  /\ let p := {| position_reply := ApiReturned 1; bars_reply := ApiRaised |} in
     ema_main [p] = ([SkippedNoData], None)
     /\ sma_main [p] = ([SkippedNoData], None)
     /\ orders_placed [SkippedNoData] = [].
Proof.
  split; [now left|].
  apply (failed_bars_request_skips (ApiReturned 1) ApiRaised). now left.
Defined.

(** ** A broker that fills at once *)

Lemma decision_orders_cases (symbol : string) (b s : bool) (position : Q) :
  orders_of (decision symbol b s position) = []
  \/ (position == 0
      /\ orders_of (decision symbol b s position) = [place_order symbol 1 buy])
  \/ (0 < position
      /\ orders_of (decision symbol b s position) = [place_order symbol 1 sell]).
Proof.
  unfold decision, orders_of.
  destruct (b && Qeq_bool position 0) eqn:E1.
  - right; left. apply andb_true_iff in E1 as [_ E1].
    split; [now apply Qeq_bool_eq | reflexivity].
  - destruct (s && Qgtb position 0) eqn:E2.
    + right; right. apply andb_true_iff in E2 as [_ E2].
      split; [now apply Qgtb_lt | reflexivity].
    + now left.
Qed.

Lemma fills_keep_flat_or_long (cycle : Q -> list Q -> result cycle_outcome)
  (symbol : string) :
  (forall position data, exists o,
      cycle position data = inr o
      /\ (orders_of o = []
          \/ (position == 0 /\ orders_of o = [place_order symbol 1 buy])
          \/ (0 < position /\ orders_of o = [place_order symbol 1 sell]))) ->
  forall (feed : list (Q * list Q)) (start : Q),
    start == 0 \/ start == 1 ->
    fills_immediately cycle start feed ->
    Forall flat_or_long_one feed.
Proof.
  intros Hcycle feed. induction feed as [|[reported bars] feed IH];
    intros start Hstart Hfeed; [constructor|].
  cbn [fills_immediately] in Hfeed. destruct Hfeed as [Hrep Hrest].
  assert (Hhere : reported == 0 \/ reported == 1)
    by (destruct Hstart as [H | H]; [left | right]; now rewrite Hrep, H).
  constructor; [exact Hhere|].
  destruct (Hcycle reported bars) as (o & Ho & Hord). rewrite Ho in Hrest.
  apply (IH (reported + inject_Z (net_quantity (orders_of o)))); [|exact Hrest].
  destruct Hord as [-> | [[H0 ->] | [Hpos ->]]];
    cbn [net_quantity fold_right signed_quantity place_order order_side order_qty].
  - change (inject_Z 0) with 0. destruct Hhere as [H | H]; [left | right]; lra.
  - change (inject_Z (1 + 0)) with 1. right. lra.
  - change (inject_Z (- (1) + 0)) with (-1 # 1). left.
    destruct Hhere as [H | H]; lra.
Qed.

(** X15.  With a broker that fills every order at once, a run of [ema.py]
    that starts flat only ever sees the quantities 0 and 1: it never
    holds more than one share and never goes short. *)
Theorem ema_run_stays_flat_or_long_one (feed : list (Q * list Q)) :
  fills_immediately Ema.main_cycle 0 feed -> Forall flat_or_long_one feed.
Proof.
  apply (fills_keep_flat_or_long Ema.main_cycle Ema.SYMBOL); [|now left].
  intros position data.
  destruct (ema_cycle_returns position data) as (o & Ho & [-> | [-> | ->]]);
    eexists; (split; [exact Ho|]); try (now left).
  apply decision_orders_cases.
Qed.

Lemma ema_run_stays_flat_or_long_one_witness :
  fills_immediately Ema.main_cycle 0
    [(0, repeat 5 26 ++ [6]); (1, repeat 5 26 ++ [7; 2]); (0, repeat 5 27)]
  /\ Forall flat_or_long_one
       [(0, repeat 5 26 ++ [6]); (1, repeat 5 26 ++ [7; 2]); (0, repeat 5 27)].
Proof.
  assert (H : fills_immediately Ema.main_cycle 0
    [(0, repeat 5 26 ++ [6]); (1, repeat 5 26 ++ [7; 2]); (0, repeat 5 27)])
    by (vm_compute; repeat split).
  split; [exact H|].
  apply (ema_run_stays_flat_or_long_one _ H).
Defined.

(** X16.  The same for [sma.py]: with a broker that fills at once a run
    that starts flat only ever sees the quantities 0 and 1. *)
Theorem sma_run_stays_flat_or_long_one (feed : list (Q * list Q)) :
  fills_immediately Sma.main_cycle 0 feed -> Forall flat_or_long_one feed.
Proof.
  apply (fills_keep_flat_or_long Sma.main_cycle Sma.SYMBOL); [|now left].
  intros position data.
  destruct (sma_cycle_returns position data) as (o & Ho & [-> | [-> | ->]]);
    eexists; (split; [exact Ho|]); try (now left).
  apply decision_orders_cases.
Qed.

Lemma sma_run_stays_flat_or_long_one_witness :
  fills_immediately Sma.main_cycle 0
    [(0, repeat 5 20 ++ [6]); (1, repeat 5 20 ++ [7; 2]); (0, repeat 5 21)]
  /\ Forall flat_or_long_one
       [(0, repeat 5 20 ++ [6]); (1, repeat 5 20 ++ [7; 2]); (0, repeat 5 21)].
Proof.
  assert (H : fills_immediately Sma.main_cycle 0
    [(0, repeat 5 20 ++ [6]); (1, repeat 5 20 ++ [7; 2]); (0, repeat 5 21)])
    by (vm_compute; repeat split).
  split; [exact H|].
  apply (sma_run_stays_flat_or_long_one _ H).
Defined.

(** * [round_down] *)

Lemma Qtruncate_nonneg (x : Q) : 0 <= x -> Qtruncate x = Qfloor x.
Proof.
  destruct x as [n d]. unfold Qle, Qtruncate, Qfloor. cbn [Qnum Qden].
  intros H. apply Z.quot_div_nonneg; lia.
Qed.

Lemma Qtruncate_nonpos (x : Q) : x <= 0 -> Qtruncate x = Qceiling x.
Proof.
  destruct x as [n d]. unfold Qle, Qtruncate, Qceiling, Qfloor, Qopp.
  cbn [Qnum Qden]. intros H.
  rewrite <- (Z.quot_div_nonneg (- n) (Zpos d)) by lia.
  rewrite Z.quot_opp_l by lia. lia.
Qed.

Lemma Qtruncate_abs (x : Q) : Z.abs (Qtruncate x) = Qfloor (Qabs x).
Proof.
  destruct x as [n d]. unfold Qtruncate, Qabs, Qfloor. cbn [Qnum Qden].
  rewrite <- (Z.quot_abs n (Zpos d)) by lia.
  change (Z.abs (Zpos d)) with (Zpos d).
  apply Z.quot_div_nonneg; lia.
Qed.

Lemma Qtruncate_bounds_nonneg (x : Q) :
  0 <= x ->
  (0 <= Qtruncate x)%Z
  /\ inject_Z (Qtruncate x) <= x /\ x < inject_Z (Qtruncate x) + 1.
Proof.
  intros H. rewrite (Qtruncate_nonneg x H). split; [|split].
  - change 0%Z with (Qfloor 0). now apply Qfloor_resp_le.
  - apply Qfloor_le.
  - pose proof (Qlt_floor x) as Hlt. rewrite inject_Z_plus in Hlt. exact Hlt.
Qed.

Lemma Qtruncate_bounds_nonpos (x : Q) :
  x <= 0 ->
  (Qtruncate x <= 0)%Z
  /\ x <= inject_Z (Qtruncate x) /\ inject_Z (Qtruncate x) - 1 < x.
Proof.
  intros H. rewrite (Qtruncate_nonpos x H). split; [|split].
  - change 0%Z with (Qceiling 0). now apply Qceiling_resp_le.
  - apply Qle_ceiling.
  - pose proof (Qceiling_lt x) as Hlt.
    unfold Z.sub in Hlt. rewrite inject_Z_plus in Hlt. exact Hlt.
Qed.

Lemma Qtruncate_monotone (x y : Q) : x <= y -> (Qtruncate x <= Qtruncate y)%Z.
Proof.
  intros Hxy.
  destruct (Qlt_le_dec x 0) as [Hx | Hx]; destruct (Qlt_le_dec y 0) as [Hy | Hy].
  - rewrite !Qtruncate_nonpos by lra. now apply Qceiling_resp_le.
  - destruct (Qtruncate_bounds_nonpos x) as [H1 _]; [lra|].
    destruct (Qtruncate_bounds_nonneg y Hy) as [H2 _]. lia.
  - lra.
  - rewrite !Qtruncate_nonneg by lra. now apply Qfloor_resp_le.
Qed.

Section RoundDown.

Variable decimals : Z.

Local Abbreviation places := (Z.of_nat (Z.to_nat decimals)).
Local Abbreviation T := (inject_Z (10 ^ places)).

Lemma ten_power_pos : (0 < 10 ^ places)%Z.
Proof. apply Z.pow_pos_nonneg; lia. Qed.

Lemma T_pos : 0 < T.
Proof.
  change 0 with (inject_Z 0). rewrite <- Zlt_Qlt. apply ten_power_pos.
Qed.

Lemma quantum_value (t : Z) : (t # Z.to_pos (10 ^ places)) * T == inject_Z t.
Proof.
  unfold Qeq, Qmult, inject_Z. cbn [Qnum Qden].
  rewrite Pos.mul_1_r, Z2Pos.id by apply ten_power_pos. ring.
Qed.

Lemma last_place_value : last_place decimals * T == 1.
Proof. apply (quantum_value 1). Qed.

Lemma round_down_inv (value r : Q) :
  round_down value decimals = Decimal r ->
  (places <= 1000026)%Z
  /\ (Z.abs (Qtruncate (value * T)) < 10 ^ 28)%Z
  /\ r = Qtruncate (value * T) # Z.to_pos (10 ^ places).
Proof.
  unfold round_down.
  destruct (1000026 <? places)%Z eqn:E1; [discriminate|].
  destruct (10 ^ 28 <=? Z.abs (Qtruncate (value * T)))%Z eqn:E2; [discriminate|].
  intros [= <-]. apply Z.ltb_ge in E1. apply Z.leb_gt in E2. repeat split; assumption.
Qed.

Lemma scale_le (a b : Q) : a * T <= b * T -> a <= b.
Proof. intros H. apply (Qmult_le_r a b T T_pos). exact H. Qed.

Lemma scale_lt (a b : Q) : a * T < b * T -> a < b.
Proof. intros H. apply (Qmult_lt_r a b T T_pos). exact H. Qed.

Lemma round_down_towards_zero (value r : Q) :
  round_down value decimals = Decimal r ->
  (0 <= value -> 0 <= r /\ r <= value /\ value < r + last_place decimals)
  /\ (value <= 0 -> value <= r /\ r <= 0 /\ r - last_place decimals < value).
Proof.
  intros Hr. destruct (round_down_inv value r Hr) as (_ & _ & ->).
  set (t := Qtruncate (value * T)).
  pose proof (quantum_value t) as Hq. pose proof last_place_value as Hu.
  pose proof T_pos as HT.
  split; intros Hv.
  - assert (Hx : 0 <= value * T) by (apply Qmult_le_0_compat; lra).
    destruct (Qtruncate_bounds_nonneg _ Hx) as (H0 & H1 & H2). fold t in H0, H1, H2.
    assert (Ht0 : 0 <= inject_Z t) by (change 0 with (inject_Z 0); now rewrite <- Zle_Qle).
    repeat split.
    + apply scale_le. rewrite Hq. lra.
    + apply scale_le. rewrite Hq. exact H1.
    + apply scale_lt. rewrite Qmult_plus_distr_l, Hq, Hu. exact H2.
  - assert (Hx : value * T <= 0).
    { assert (0 <= (- value) * T) by (apply Qmult_le_0_compat; lra). lra. }
    destruct (Qtruncate_bounds_nonpos _ Hx) as (H0 & H1 & H2). fold t in H0, H1, H2.
    assert (Ht0 : inject_Z t <= 0) by (change 0 with (inject_Z 0); now rewrite <- Zle_Qle).
    repeat split.
    + apply scale_le. rewrite Hq. exact H1.
    + apply scale_le. rewrite Hq. lra.
    + apply scale_lt.
      assert (Hd : (t # Z.to_pos (10 ^ places)) * T - last_place decimals * T
                   == ((t # Z.to_pos (10 ^ places)) - last_place decimals) * T) by ring.
      rewrite <- Hd, Hq, Hu. exact H2.
Qed.

Lemma round_down_fixed_point (value r : Q) :
  round_down value decimals = Decimal r -> round_down r decimals = Decimal r.
Proof.
  intros Hr. destruct (round_down_inv value r Hr) as (Hp & Habs & ->).
  set (t := Qtruncate (value * T)) in *.
  assert (Ht : Qtruncate ((t # Z.to_pos (10 ^ places)) * T) = t).
  { unfold Qtruncate, Qmult, inject_Z. cbn [Qnum Qden].
    rewrite Pos.mul_1_r, Z2Pos.id by apply ten_power_pos.
    apply Z.quot_mul. pose proof ten_power_pos. lia. }
  unfold round_down. rewrite Ht.
  replace (1000026 <? places)%Z with false by (symmetry; apply Z.ltb_ge; lia).
  replace (10 ^ 28 <=? Z.abs t)%Z with false by (symmetry; apply Z.leb_gt; lia).
  reflexivity.
Qed.

Lemma round_down_error_iff (value : Q) :
  (places <= 1000026)%Z ->
  round_down value decimals = InvalidOperation
  <-> inject_Z (10 ^ 28) <= Qabs value * T.
Proof.
  intros Hp. unfold round_down.
  replace (1000026 <? places)%Z with false by (symmetry; apply Z.ltb_ge; lia).
  rewrite Qtruncate_abs.
  assert (Habs : Qabs (value * T) == Qabs value * T).
  { rewrite Qabs_Qmult. rewrite (Qabs_pos T); [reflexivity|]. pose proof T_pos. lra. }
  destruct (10 ^ 28 <=? Qfloor (Qabs (value * T)))%Z eqn:E.
  - apply Z.leb_le in E. split; [intros _ | reflexivity].
    rewrite <- Habs. eapply Qle_trans; [|apply Qfloor_le].
    now rewrite <- Zle_Qle.
  - apply Z.leb_gt in E. split; [discriminate|]. intros H. exfalso.
    rewrite <- Habs in H. apply Qfloor_resp_le in H.
    rewrite Qfloor_Z in H. lia.
Qed.

Lemma round_down_monotone (v1 v2 r1 r2 : Q) :
  v1 <= v2 ->
  round_down v1 decimals = Decimal r1 -> round_down v2 decimals = Decimal r2 ->
  r1 <= r2.
Proof.
  intros Hv H1 H2.
  destruct (round_down_inv v1 r1 H1) as (_ & _ & ->).
  destruct (round_down_inv v2 r2 H2) as (_ & _ & ->).
  apply scale_le. rewrite !quantum_value. rewrite <- Zle_Qle.
  apply Qtruncate_monotone. apply Qmult_le_compat_r; [exact Hv|].
  pose proof T_pos. lra.
Qed.

End RoundDown.

(** X17.  When [round_down] returns, its result lies between zero and
    the value, on the value's side, and is less than one unit of the last
    kept place away from it. *)
Theorem round_down_truncates_towards_zero (value r : Q) (decimals : Z) :
  round_down value decimals = Decimal r ->
  (0 <= value -> 0 <= r /\ r <= value /\ value < r + last_place decimals)
  /\ (value <= 0 -> value <= r /\ r <= 0 /\ r - last_place decimals < value).
Proof. apply round_down_towards_zero. Qed.

Lemma round_down_truncates_towards_zero_witness :
  round_down (314159 # 100000) 2 = Decimal (314 # 100)
  /\ (0 <= 314159 # 100000 ->
      0 <= 314 # 100 /\ 314 # 100 <= 314159 # 100000
      /\ 314159 # 100000 < (314 # 100) + last_place 2)
  /\ (314159 # 100000 <= 0 ->
      314159 # 100000 <= 314 # 100 /\ 314 # 100 <= 0
      /\ (314 # 100) - last_place 2 < 314159 # 100000).
Proof.
  split; [reflexivity|].
  apply (round_down_truncates_towards_zero (314159 # 100000) (314 # 100) 2).
  reflexivity.
Defined.

(** X18.  A value [round_down] returned is left unchanged by rounding it
    down again to the same number of places. *)
Theorem round_down_is_idempotent (value r : Q) (decimals : Z) :
  round_down value decimals = Decimal r -> round_down r decimals = Decimal r.
Proof. apply round_down_fixed_point. Qed.

Lemma round_down_is_idempotent_witness :
  round_down (-314159 # 100000) 3 = Decimal (-3141 # 1000)
  /\ round_down (-3141 # 1000) 3 = Decimal (-3141 # 1000).
Proof.
  split; [reflexivity|].
  apply (round_down_is_idempotent (-314159 # 100000) (-3141 # 1000) 3).
  reflexivity.
Defined.

(** X19.  For up to 1000026 places [round_down] returns a value or
    signals [InvalidOperation], and it signals exactly when the value
    scaled by ten to the number of places reaches ten to the 28; a
    negative [decimals] counts as no place. *)
Theorem round_down_fails_exactly_on_overflow (value : Q) (decimals : Z) :
  (decimals <= 1000026)%Z ->
  (round_down value decimals = InvalidOperation
   <-> inject_Z (10 ^ 28) <= Qabs value * inject_Z (10 ^ Z.max 0 decimals))
  /\ ((exists r : Q, round_down value decimals = Decimal r)
      <-> Qabs value * inject_Z (10 ^ Z.max 0 decimals) < inject_Z (10 ^ 28)).
Proof.
  intros Hok.
  assert (Hp : Z.of_nat (Z.to_nat decimals) = Z.max 0 decimals) by lia.
  rewrite <- Hp.
  pose proof (round_down_error_iff decimals value ltac:(lia)) as Herr.
  split; [exact Herr|].
  assert (Hnot : round_down value decimals <> QuantumRejected).
  { unfold round_down.
    replace (1000026 <? Z.of_nat (Z.to_nat decimals))%Z with false
      by (symmetry; apply Z.ltb_ge; lia).
    destruct (10 ^ 28 <=? _)%Z; discriminate. }
  destruct (round_down value decimals) as [| |r] eqn:E.
  - split; [intros [r Hr]; discriminate|]. intros Hlt.
    apply Qlt_not_le in Hlt. exfalso. apply Hlt. now apply Herr.
  - contradiction.
  - split; [intros _ | intros _; now exists r].
    apply Qnot_le_lt. intros Hle. apply Herr in Hle. discriminate.
Qed.

Lemma round_down_fails_exactly_on_overflow_witness :
  (1 <= 1000026)%Z
  /\ (round_down (inject_Z (10 ^ 27)) 1 = InvalidOperation
      <-> inject_Z (10 ^ 28) <= Qabs (inject_Z (10 ^ 27)) * inject_Z (10 ^ Z.max 0 1))
  /\ ((exists r : Q, round_down (inject_Z (10 ^ 27)) 1 = Decimal r)
      <-> Qabs (inject_Z (10 ^ 27)) * inject_Z (10 ^ Z.max 0 1) < inject_Z (10 ^ 28)).
Proof.
  split; [lia|].
  apply (round_down_fails_exactly_on_overflow (inject_Z (10 ^ 27)) 1). lia.
Defined.

(** X20.  [round_down] preserves order: of two values rounded to the same
    number of places, the smaller one does not get the larger result. *)
Theorem round_down_preserves_order (v1 v2 r1 r2 : Q) (decimals : Z) :
  v1 <= v2 ->
  round_down v1 decimals = Decimal r1 -> round_down v2 decimals = Decimal r2 ->
  r1 <= r2.
Proof. apply round_down_monotone. Qed.

Lemma round_down_preserves_order_witness :
  (-5 # 2) <= 199 # 100
  /\ round_down (-5 # 2) 0 = Decimal (-2 # 1)
  /\ round_down (199 # 100) 0 = Decimal (1 # 1)
  /\ (-2 # 1) <= 1 # 1.
Proof.
  split; [discriminate|]. split; [reflexivity|]. split; [reflexivity|].
  apply (round_down_preserves_order (-5 # 2) (199 # 100) (-2 # 1) (1 # 1) 0);
    [discriminate | reflexivity | reflexivity].
Defined.

(** * The history guard of [sma.py] *)

(** X21.  On a non-empty series a cycle of [sma.py] is skipped for lack
    of history exactly when the current SMA is undefined: a cycle that
    reaches the detector always compares the price with a number. *)
Theorem sma_guard_matches_undefined_average (position : Q) (data : list Q) :
  (0 < length data)%nat ->
  exists sma : list Float.t,
    Sma.calculate_sma data Sma.SMA_WINDOW = inr sma
    /\ (from_end sma 1 (Some 0) = Float.NaN
        <-> Sma.main_cycle position data = inr SkippedNotEnoughData).
Proof.
  intros Hlen. exists (sma_series Sma.SMA_WINDOW data).
  split; [apply calculate_sma_ok; unfold Sma.SMA_WINDOW; lia|].
  unfold from_end. rewrite sma_series_length. unfold Sma.SMA_WINDOW.
  destruct (Nat.lt_ge_cases (length data) 20) as [H|H].
  - rewrite sma_series_undefined by lia.
    rewrite sma_cycle_short by lia. split; reflexivity.
  - destruct (sma_series_defined 20 data (length data - 1) (Some 0))
      as (v & -> & _); try lia.
    rewrite sma_cycle_decided by exact H.
    split; [discriminate | intros [= E]; discriminate].
Qed.

Lemma sma_guard_matches_undefined_average_witness :
  (0 < length (repeat 5 19))%nat
  /\ exists sma : list Float.t,
       Sma.calculate_sma (repeat 5 19) Sma.SMA_WINDOW = inr sma
       /\ (from_end sma 1 (Some 0) = Float.NaN
           <-> Sma.main_cycle 0 (repeat 5 19) = inr SkippedNotEnoughData).
Proof.
  split; [simpl; lia|].
  apply (sma_guard_matches_undefined_average 0 (repeat 5 19)). simpl; lia.
Defined.

(** * Further worked examples *)

(** A long position of one share is held, the EMAs cross upwards and the
    position lookup raises: the cycle buys a second share, where the same
    cycle with a lookup that answers places nothing. *)
Example failed_lookup_buys_again :
  ema_main [{| position_reply := ApiRaised;
               bars_reply := ApiReturned (repeat 5 26 ++ [6]) |}]
  = ([Decided true false [place_order "AAPL" 1 buy]], None)
  /\ ema_main [{| position_reply := ApiReturned 1;
                  bars_reply := ApiReturned (repeat 5 26 ++ [6]) |}]
     = ([Decided true false []], None).
Proof. split; reflexivity. Qed.

(** The quantum of [round_down] has no place for a negative [decimals]:
    123.456 rounded down to -1 places is 123. *)
Example round_down_negative_places :
  round_down (123456 # 1000) (-1) = Decimal (123 # 1)
  /\ round_down (123456 # 1000) 0 = Decimal (123 # 1).
Proof. split; reflexivity. Qed.

Example round_down_too_many_digits :
  round_down (inject_Z (10 ^ 27)) 1 = InvalidOperation
  /\ round_down (inject_Z (10 ^ 27)) 0 = Decimal (inject_Z (10 ^ 27)).
Proof. split; reflexivity. Qed.
